(** * mcp-hotnews-server: aggregation cache, sanitizers and proxy rewriter

    A shallow embedding of [src/config.ts] and of the [SimpleCache] and
    [HotNewsServer] classes of [src/http-server.ts], followed by the properties
    established about them.

    JavaScript strings are sequences of UTF-16 code units, so they are
    modelled as [list N]; [js] turns a UTF-8 literal of this file into that
    representation.  [null] results are [None]. *)

From Stdlib Require Import ZArith NArith List String Ascii Lia.
From Stdlib Require Import DecimalString DecimalZ.
From stdpp Require Import gmap.

Import ListNotations.

Set Default Proof Using "Type".

(* ===================================================================== *)
(** ** JavaScript strings *)
(* ===================================================================== *)

Abbreviation jstring := (list N).

(** Code units of one scalar value: a surrogate pair above the BMP. *)
Definition utf16_units (cp : N) : list N :=
  if (cp <? 65536)%N then [cp]
  else [(55296 + (cp - 65536) / 1024)%N; (56320 + (cp - 65536) mod 1024)%N].

(** Decoder for the UTF-8 literals written in this file. *)
Fixpoint utf8_decode (s : string) : jstring :=
  match s with
  | EmptyString => []
  | String a r =>
    let b0 := N_of_ascii a in
    if (b0 <? 128)%N then b0 :: utf8_decode r
    else if (b0 <? 224)%N then
      match r with
      | String b r1 =>
        utf16_units ((b0 mod 32) * 64 + N_of_ascii b mod 64)%N ++ utf8_decode r1
      | EmptyString => [65533%N]
      end
    else if (b0 <? 240)%N then
      match r with
      | String b (String c r2) =>
        utf16_units ((b0 mod 16) * 4096 + (N_of_ascii b mod 64) * 64
                     + N_of_ascii c mod 64)%N ++ utf8_decode r2
      | _ => [65533%N]
      end
    else
      match r with
      | String b (String c (String d r3)) =>
        utf16_units ((b0 mod 8) * 262144 + (N_of_ascii b mod 64) * 4096
                     + (N_of_ascii c mod 64) * 64 + N_of_ascii d mod 64)%N
          ++ utf8_decode r3
      | _ => [65533%N]
      end
  end.

Definition js (s : string) : jstring := utf8_decode s.
Arguments js s%_string.

(** The double quote, which the literals of this file never contain. *)
Definition dq : jstring := [34%N].

Definition jeqb (a b : jstring) : bool := bool_decide (a = b).

(** [String.prototype.startsWith]. *)
Fixpoint startsWith (p s : jstring) : bool :=
  match p, s with
  | [], _ => true
  | _ :: _, [] => false
  | a :: p', b :: s' => (a =? b)%N && startsWith p' s'
  end.

(** [String.prototype.includes]. *)
Fixpoint includes (p s : jstring) : bool :=
  startsWith p s ||
  match s with
  | [] => false
  | _ :: s' => includes p s'
  end.

(** White space and line terminators: what [trim] strips and [\s] matches. *)
Definition isJsSpace (c : N) : bool :=
  ((9 <=? c) && (c <=? 13) || (c =? 32) || (c =? 160) || (c =? 5760)
   || (8192 <=? c) && (c <=? 8202) || (c =? 8232) || (c =? 8233)
   || (c =? 8239) || (c =? 8287) || (c =? 12288) || (c =? 65279))%N.

Fixpoint trimStart (s : jstring) : jstring :=
  match s with
  | c :: s' => if isJsSpace c then trimStart s' else s
  | [] => []
  end.

Fixpoint trimEnd (s : jstring) : jstring :=
  match s with
  | [] => []
  | c :: s' =>
    match trimEnd s' with
    | [] => if isJsSpace c then [] else [c]
    | t => c :: t
    end
  end.

(** [String.prototype.trim]. *)
Definition trim (s : jstring) : jstring := trimEnd (trimStart s).

(** [s.length]. *)
Definition jlength (s : jstring) : Z := Z.of_nat (length s).

(** [s.substring(0, n)]: a negative [n] counts as 0. *)
Definition substring0 (n : Z) (s : jstring) : jstring := firstn (Z.to_nat n) s.

(** [Array.prototype.join]. *)
Fixpoint join (sep : jstring) (l : list jstring) : jstring :=
  match l with
  | [] => []
  | [x] => x
  | x :: l' => x ++ sep ++ join sep l'
  end.

(** [s.split(c)] for a one-unit separator: never the empty list. *)
Fixpoint split (c : N) (s : jstring) : list jstring :=
  match s with
  | [] => [[]]
  | x :: s' =>
    if (x =? c)%N then [] :: split c s'
    else match split c s' with
         | h :: t => (x :: h) :: t
         | [] => [[x]]
         end
  end.

(** [s.replace(c, '')] for a one-unit string pattern: the first occurrence
    only. *)
Fixpoint removeFirst (c : N) (s : jstring) : jstring :=
  match s with
  | [] => []
  | x :: s' => if (x =? c)%N then s' else x :: removeFirst c s'
  end.

Definition ofAscii (s : string) : jstring :=
  map N_of_ascii (list_ascii_of_string s).

(** [String(n)] for an integer [n]. *)
Definition numberToString (z : Z) : jstring :=
  ofAscii (NilEmpty.string_of_int (Z.to_int z)).

(* ===================================================================== *)
(** ** Regular expressions

    The fragment of the RegExp language that [cleanHtmlForRichText] uses,
    with the backtracking order of the language: alternatives left to right,
    a greedy star longest first, a lazy star shortest first.  Every starred
    item of the source is a single character class. *)
(* ===================================================================== *)

Inductive regex :=
| RLit (ci : bool) (l : jstring)
| RSet (p : N -> bool)
| RStar (greedy : bool) (p : N -> bool)
| RSeq (r1 r2 : regex)
| RAlt (r1 r2 : regex)
| RGroup (r : regex).

(** Canonical form of a unit under the [i] flag, for ASCII patterns. *)
Definition asciiUpper (c : N) : N :=
  if ((97 <=? c) && (c <=? 122))%N then (c - 32)%N else c.

Definition unitMatches (ci : bool) (a c : N) : bool :=
  if ci then (asciiUpper a =? asciiUpper c)%N else (a =? c)%N.

Fixpoint litMatch (ci : bool) (l s : jstring) : option jstring :=
  match l, s with
  | [], _ => Some s
  | _ :: _, [] => None
  | a :: l', c :: s' => if unitMatches ci a c then litMatch ci l' s' else None
  end.

Section Matcher.
Context {R : Type}.

Fixpoint starGreedy (p : N -> bool) (s : jstring)
    (k : jstring -> option R) : option R :=
  match s with
  | c :: s' =>
    if p c then
      match starGreedy p s' k with
      | Some x => Some x
      | None => k s
      end
    else k s
  | [] => k []
  end.

Fixpoint starLazy (p : N -> bool) (s : jstring)
    (k : jstring -> option R) : option R :=
  match k s with
  | Some x => Some x
  | None =>
    match s with
    | c :: s' => if p c then starLazy p s' k else None
    | [] => None
    end
  end.

(** [caps] collects the text of the groups closed so far, in order. *)
Fixpoint rmatch (r : regex) (s : jstring) (caps : list jstring)
    (k : jstring -> list jstring -> option R) : option R :=
  match r with
  | RLit ci l =>
    match litMatch ci l s with
    | Some rest => k rest caps
    | None => None
    end
  | RSet p =>
    match s with
    | c :: s' => if p c then k s' caps else None
    | [] => None
    end
  | RStar true p => starGreedy p s (fun rest => k rest caps)
  | RStar false p => starLazy p s (fun rest => k rest caps)
  | RSeq r1 r2 => rmatch r1 s caps (fun s1 c1 => rmatch r2 s1 c1 k)
  | RAlt r1 r2 =>
    match rmatch r1 s caps k with
    | Some x => Some x
    | None => rmatch r2 s caps k
    end
  | RGroup r1 =>
    rmatch r1 s caps
      (fun s1 c1 => k s1 (c1 ++ [firstn (length s - length s1) s]))
  end.
End Matcher.

(** A match anchored at the head of [s]: its length and its groups. *)
Definition exec (r : regex) (s : jstring) : option (nat * list jstring) :=
  match rmatch r s [] (fun rest caps => Some (rest, caps)) with
  | Some (rest, caps) => Some (length s - length rest, caps)
  | None => None
  end.

(** [s.replace(r, repl)] for a regex with the [g] flag.  [skip] counts the
    units of the current match that are still to be dropped; an empty match
    copies one unit and moves on, as [lastIndex] does. *)
Fixpoint replaceAllFrom (r : regex) (repl : list jstring -> jstring)
    (s : jstring) (skip : nat) : jstring :=
  match s with
  | [] =>
    match skip with
    | O => match exec r [] with
           | Some (_, caps) => repl caps
           | None => []
           end
    | S _ => []
    end
  | c :: s' =>
    match skip with
    | S k => replaceAllFrom r repl s' k
    | O =>
      match exec r s with
      | Some (O, caps) => repl caps ++ c :: replaceAllFrom r repl s' 0
      | Some (S n, caps) => repl caps ++ replaceAllFrom r repl s' n
      | None => c :: replaceAllFrom r repl s' 0
      end
    end
  end.

Definition replaceAll (r : regex) (repl : list jstring -> jstring)
    (s : jstring) : jstring :=
  replaceAllFrom r repl s 0.

Definition lit (s : string) : regex := RLit false (js s).
Arguments lit s%_string.
Definition anyUnit : N -> bool := fun _ => true.
Definition notUnit (c : N) : N -> bool := fun x => negb (x =? c)%N.
Definition seqs (l : list regex) : regex :=
  fold_right RSeq (RLit false []) l.
Definition alts (l : list string) : regex :=
  fold_right (fun s r => RAlt (lit s) r) (RSet (fun _ => false)) l.
Definition capture (n : nat) (caps : list jstring) : jstring :=
  nth n caps [].

(* ===================================================================== *)
(** ** config.ts *)
(* ===================================================================== *)

Record HotNewsSource := { name : jstring; description : jstring }.

Definition HOT_NEWS_SOURCES : gmap Z HotNewsSource :=
  list_to_map
    [ (1%Z, {| name := js "zhihuHot"; description := js "Zhihu Hot List (知乎热榜)" |});
      (2%Z, {| name := js "36Ke"; description := js "36Kr Hot List (36氪热榜)" |});
      (3%Z, {| name := js "baiduRD"; description := js "Baidu Hot Discussion (百度热点)" |});
      (4%Z, {| name := js "bili"; description := js "Bilibili Hot List (B站热榜)" |});
      (5%Z, {| name := js "wbHot"; description := js "Weibo Hot Search (微博热搜)" |});
      (6%Z, {| name := js "douyinHot"; description := js "Douyin Hot List (抖音热点)" |});
      (7%Z, {| name := js "huPu"; description := js "Hupu Hot List (虎扑热榜)" |});
      (8%Z, {| name := js "douban"; description := js "Douban Hot List (豆瓣热榜)" |});
      (9%Z, {| name := js "itNews"; description := js "IT News (IT新闻)" |}) ].

(** [Math.max(...Object.keys(HOT_NEWS_SOURCES).map(Number))]. *)
Definition getMaxSourceId : Z :=
  foldr Z.max 0%Z (map fst (map_to_list HOT_NEWS_SOURCES)).

Definition unsupportedTags : list jstring :=
  map js ["script"; "style"; "iframe"; "object"; "embed"; "form"; "input";
          "button"; "nav"; "header"; "footer"; "aside"; "canvas"; "svg"]%string.

(** config.ts line 60, flags [gis]: an opening [tag] up to its first [>],
    then as little as possible up to the first closing [tag]. *)
Definition tagBlock (tag : jstring) : regex :=
  seqs [ RLit true (js "<" ++ tag); RStar true (notUnit 62); RLit true (js ">");
         RStar false anyUnit; RLit true (js "</" ++ tag ++ js ">") ].

(** config.ts line 65: a [div] or [span] opening tag followed, after white
    space only, by a [div] or [span] closing tag. *)
Definition emptyBoxRe : regex :=
  seqs [ lit "<"; RGroup (alts ["div"; "span"]%string); RStar true isJsSpace;
         RStar true (notUnit 62); lit ">"; RStar true isJsSpace; lit "</";
         RGroup (alts ["div"; "span"]%string); lit ">" ].

(** config.ts line 69: an [img] tag, the text after [<img] captured. *)
Definition imgRe : regex :=
  seqs [ lit "<img"; RGroup (RStar true (notUnit 62)); lit ">" ].

Definition imgStyle : jstring :=
  js " style=" ++ dq
     ++ js "max-width:100%;height:auto;display:block;margin:10px 0;" ++ dq
     ++ js ">".

(** config.ts line 74: a white space unit, one of the listed attribute names,
    [=] and a double-quoted value. *)
Definition attrRe : regex :=
  seqs [ RSet isJsSpace;
         RGroup (RAlt (lit "id") (RAlt (lit "class")
                  (RAlt (RSeq (lit "data-") (RStar true (notUnit 61)))
                  (RAlt (lit "onclick") (RAlt (lit "onload") (lit "onerror"))))));
         lit "="; RLit false dq; RStar true (notUnit 34); RLit false dq ].

(** config.ts line 77: a container opening tag; group 2 is its attribute
    text. *)
Definition boxOpenRe : regex :=
  seqs [ lit "<"; RGroup (alts ["div"; "section"; "article"]%string);
         RGroup (RStar true (notUnit 62)); lit ">" ].

(** config.ts line 78: a container closing tag. *)
Definition boxCloseRe : regex :=
  seqs [ lit "</"; RGroup (alts ["div"; "section"; "article"]%string); lit ">" ].

(** config.ts line 81: two [<p] tags separated by white space only. *)
Definition nestedOpenRe : regex :=
  seqs [ lit "<p"; RStar true (notUnit 62); lit ">"; RStar true isJsSpace;
         lit "<p"; RStar true (notUnit 62); lit ">" ].

(** config.ts line 82: two paragraph closing tags separated by white space
    only. *)
Definition nestedCloseRe : regex :=
  seqs [ lit "</p>"; RStar true isJsSpace; lit "</p>" ].

(** config.ts line 85: a [<p] tag closed after white space only. *)
Definition emptyParaRe : regex :=
  seqs [ lit "<p"; RStar true (notUnit 62); lit ">"; RStar true isJsSpace;
         lit "</p>" ].

(** config.ts line 88: any tag. *)
Definition anyTagRe : regex :=
  seqs [ lit "<"; RStar true (notUnit 62); lit ">" ].

Definition noContent : jstring := js "<p>暂无内容</p>".
Definition stillLoading : jstring := js "<p>内容正在加载中，请稍后...</p>".
Definition lengthCeiling : Z := 50000.

(** The rewriting passes of [cleanHtmlForRichText], up to the length
    checks. *)
Definition richTextPasses (html : jstring) : jstring :=
  let cleanHtml :=
    fold_left (fun acc tag => replaceAll (tagBlock tag) (fun _ => []) acc)
              unsupportedTags html in
  let cleanHtml := replaceAll emptyBoxRe (fun _ => []) cleanHtml in
  let cleanHtml :=
    replaceAll imgRe (fun caps => js "<img" ++ capture 0 caps ++ imgStyle)
               cleanHtml in
  let cleanHtml := replaceAll attrRe (fun _ => []) cleanHtml in
  let cleanHtml :=
    replaceAll boxOpenRe (fun caps => js "<p" ++ capture 1 caps ++ js ">")
               cleanHtml in
  let cleanHtml := replaceAll boxCloseRe (fun _ => js "</p>") cleanHtml in
  let cleanHtml := replaceAll nestedOpenRe (fun _ => js "<p>") cleanHtml in
  let cleanHtml := replaceAll nestedCloseRe (fun _ => js "</p>") cleanHtml in
  replaceAll emptyParaRe (fun _ => []) cleanHtml.

Definition cleanHtmlForRichText (html : jstring) : jstring :=
  match html with
  | [] => noContent
  | _ =>
    let cleanHtml := richTextPasses html in
    let textContent := trim (replaceAll anyTagRe (fun _ => []) cleanHtml) in
    if (jlength textContent <? 10)%Z then stillLoading
    else if (lengthCeiling <? jlength cleanHtml)%Z
         then substring0 lengthCeiling cleanHtml ++ js "...</p>"
         else cleanHtml
  end.

(* ===================================================================== *)
(** ** http-server.ts: SimpleCache

    A [Map] from keys to [{ data, expires }].  [Date.now()] is the extra
    argument [now], in milliseconds; [get] returns the value it reads
    ([None] for [null]) together with the map it leaves behind. *)
(* ===================================================================== *)

Module SimpleCache.

Record entry (V : Type) := Entry { data : V; expires : Z }.
Arguments Entry {V} _ _.
Arguments data {V} _.
Arguments expires {V} _.

Section WithValue.
Context {V : Type}.

Definition set (key : jstring) (v : V) (ttlMinutes : Z) (now : Z)
    (cache : gmap jstring (entry V)) : gmap jstring (entry V) :=
  <[ key := Entry v (now + ttlMinutes * 60 * 1000)%Z ]> cache.

Definition get (key : jstring) (now : Z) (cache : gmap jstring (entry V))
    : option V * gmap jstring (entry V) :=
  match cache !! key with
  | Some item =>
    if (now >? expires item)%Z then (None, delete key cache)
    else (Some (data item), cache)
  | None => (None, delete key cache)
  end.

Definition clear (cache : gmap jstring (entry V)) : gmap jstring (entry V) :=
  ∅.
End WithValue.

End SimpleCache.

(* ===================================================================== *)
(** ** http-server.ts: the aggregation of hot lists *)
(* ===================================================================== *)

Inductive HotValue := HotString (s : jstring) | HotNumber (n : Z).

Record HotNewsItem := {
  item_index : Z;
  item_title : jstring;
  item_url : jstring;
  item_hot : option HotValue
}.

(** The body of an upstream answer; [news_message] may be missing. *)
Record HotNewsResponse := {
  news_success : bool;
  news_message : option jstring;
  news_name : jstring;
  news_subtitle : jstring;
  news_update_time : jstring;
  news_data : list HotNewsItem
}.

(** The object [{ name, subtitle, update_time, data }] of one site. *)
Record SiteData := {
  site_name : jstring;
  site_subtitle : jstring;
  site_update_time : jstring;
  site_data : list HotNewsItem
}.

(** What [axios.get] gives: a response body, or an error with its message
    (time-out, status outside the accepted range, network failure). *)
Inductive AxiosResult (A : Type) :=
| AxiosOk (body : A)
| AxiosError (message : jstring).
Arguments AxiosOk {A} _.
Arguments AxiosError {A} _.

(** A settled promise, as [Promise.allSettled] reports it. *)
Inductive Settled :=
| Fulfilled (value : SiteData)
| Rejected (reason : jstring).

Definition orUndefined (o : option jstring) : jstring :=
  match o with
  | Some s => s
  | None => js "undefined"
  end.

Definition fetchSingleSource (sourceId : Z)
    (response : AxiosResult HotNewsResponse) : Settled :=
  match HOT_NEWS_SOURCES !! sourceId with
  | None =>
    Rejected (js "Source ID " ++ numberToString sourceId ++ js " does not exist")
  | Some source =>
    match response with
    | AxiosError message => Rejected message
    | AxiosOk news =>
      if news_success news then
        Fulfilled {| site_name := news_name news;
                     site_subtitle := news_subtitle news;
                     site_update_time := news_update_time news;
                     site_data := news_data news |}
      else Rejected (js "API returned error: " ++ orUndefined (news_message news))
    end
  end.

(** [a || b] on strings. *)
Definition orElse (a b : jstring) : jstring :=
  match a with
  | [] => b
  | _ => a
  end.

(** [nowText] is [new Date().toLocaleString('zh-CN')]. *)
Definition getFallbackSiteData (sourceId : Z) (nowText : jstring)
    : option SiteData :=
  match HOT_NEWS_SOURCES !! sourceId with
  | None => None
  | Some source =>
    let siteName :=
      match split 40 (description source) !! 1%nat with
      | Some part => orElse (removeFirst 41 part) (description source)
      | None => description source
      end in
    Some {| site_name := siteName;
            site_subtitle := js "热榜";
            site_update_time := nowText;
            site_data :=
              [ {| item_index := 1; item_title := js "数据加载中，请稍候...";
                   item_url := js "#"; item_hot := Some (HotNumber 0) |};
                {| item_index := 2; item_title := js "网络连接缓慢，正在重试";
                   item_url := js "#"; item_hot := Some (HotNumber 0) |} ] |}
  end.

(** One upstream call of an aggregation: what [axios] answers and how many
    milliseconds after the start of the aggregation its promise settles. *)
Record FetchEvent := {
  response : AxiosResult HotNewsResponse;
  settleMs : Z
}.

(** The surroundings of one [getHotNews] call. *)
Record CallEnv := {
  now : Z;
  fetches : nat -> FetchEvent;
  timerWinsTie : bool;
  thrown : option jstring;
  toLocaleString : Z -> jstring
}.

(** What the awaited [Promise.race] yields inside the [try] block. *)
Inductive RaceResult :=
| RaceSettled (results : list Settled)
| RaceRejected (message : jstring).

Definition cacheKey (sources : list Z) : jstring :=
  js "hotnews_" ++ join (js "_") (map numberToString sources).

Definition requestPromises (sources : list Z) (env : CallEnv) : list Settled :=
  imap (fun i sourceId => fetchSingleSource sourceId (response (fetches env i)))
       sources.

(** A lookup that fails rejects at once; the others settle when [axios]
    does. *)
Definition settleTimes (sources : list Z) (env : CallEnv) : list Z :=
  imap (fun i sourceId =>
          match HOT_NEWS_SOURCES !! sourceId with
          | None => 0%Z
          | Some _ => Z.max 0 (settleMs (fetches env i))
          end) sources.

Definition allSettledAt (sources : list Z) (env : CallEnv) : Z :=
  foldr Z.max 0%Z (settleTimes sources env).

Definition allSettledFirst (sources : list Z) (timeoutSeconds : Z)
    (env : CallEnv) : bool :=
  let deadline := (timeoutSeconds * 1000)%Z in
  (allSettledAt sources env <? deadline)%Z
  || ((allSettledAt sources env =? deadline)%Z && negb (timerWinsTie env)).

(** [thrown] stands for an exception other than the timer's raised inside
    the [try] block. *)
Definition race (sources : list Z) (timeoutSeconds : Z) (env : CallEnv)
    : RaceResult :=
  match thrown env with
  | Some message => RaceRejected message
  | None =>
    if allSettledFirst sources timeoutSeconds env
    then RaceSettled (requestPromises sources env)
    else RaceRejected (js "TIMEOUT")
  end.

(** The two assembly loops: the value of a fulfilled promise, the fallback
    of the site otherwise. *)
Definition assemble (sources : list Z) (settled : list Settled)
    (nowText : jstring) : list (option SiteData) :=
  imap (fun i sourceId =>
          match settled !! i with
          | Some (Fulfilled value) => Some value
          | _ => getFallbackSiteData sourceId nowText
          end) sources.

Definition getHotNews (sources : list Z) (timeoutSeconds : Z) (env : CallEnv)
    (cache : gmap jstring (SimpleCache.entry (list (option SiteData))))
    : list (option SiteData)
      * gmap jstring (SimpleCache.entry (list (option SiteData))) :=
  let key := cacheKey sources in
  match SimpleCache.get key (now env) cache with
  | (Some cached, cache1) => (cached, cache1)
  | (None, cache1) =>
    let promises := requestPromises sources env in
    let finished := (now env + allSettledAt sources env)%Z in
    let nowText := toLocaleString env finished in
    match race sources timeoutSeconds env with
    | RaceSettled raceResult =>
      let results := assemble sources raceResult nowText in
      (results, SimpleCache.set key results 5 finished cache1)
    | RaceRejected message =>
      if jeqb message (js "TIMEOUT") then
        let finalResults := assemble sources promises nowText in
        (finalResults, SimpleCache.set key finalResults 2 finished cache1)
      else
        (map (fun sourceId => getFallbackSiteData sourceId nowText) sources,
         cache1)
    end
  end.

Definition clearCache
    (cache : gmap jstring (SimpleCache.entry (list (option SiteData))))
    : gmap jstring (SimpleCache.entry (list (option SiteData))) :=
  SimpleCache.clear cache.

(** The caches a server can hold: empty at construction, then changed by
    [getHotNews] and [clearCache] only. *)
Inductive reachable
    : gmap jstring (SimpleCache.entry (list (option SiteData))) -> Prop :=
| reachable_new : reachable ∅
| reachable_getHotNews cache sources timeoutSeconds env :
    reachable cache ->
    reachable (snd (getHotNews sources timeoutSeconds env cache))
| reachable_clearCache cache :
    reachable cache -> reachable (clearCache cache).

(** Entry [e] of a result stands for the requested [sourceId]: it is the
    value of a fetch of that site or the fallback of that site. *)
Definition standsFor (sourceId : Z) (e : option SiteData) : Prop :=
  (exists response value,
      fetchSingleSource sourceId response = Fulfilled value /\ e = Some value)
  \/ (exists nowText, e = getFallbackSiteData sourceId nowText).

(* ===================================================================== *)
(** ** http-server.ts: degraded article content

    The [URL] class of the platform is an interface here: [newURL s] is
    [new URL(s)], [None] when it throws; [resolveURL s base] is
    [new URL(s, base).toString()]. *)
(* ===================================================================== *)

Class UrlApi := {
  URL : Type;
  newURL : jstring -> option URL;
  hostname : URL -> jstring;
  resolveURL : jstring -> URL -> option jstring
}.

Record ArticleContent := {
  art_title : jstring;
  art_content : jstring;
  art_summary : jstring
}.

(** A double-quoted piece of a template. *)
Definition q (s : jstring) : jstring := dq ++ s ++ dq.

Definition getSiteName (host : jstring) : jstring :=
  if includes (js "zhihu.com") host then js "知乎"
  else if includes (js "36kr.com") host then js "36氪"
  else if includes (js "bilibili.com") host || includes (js "b23.tv") host
       then js "B站"
  else if includes (js "weibo.com") host then js "微博"
  else if includes (js "douyin.com") host then js "抖音"
  else if includes (js "hupu.com") host then js "虎扑"
  else if includes (js "douban.com") host then js "豆瓣"
  else if includes (js "baidu.com") host then js "百度"
  else js "未知网站".

Definition getPlatformDescription (host : jstring) : jstring :=
  if includes (js "zhihu.com") host then
    js "知乎是中文互联网高质量的问答社区，汇聚了各行各业的专业人士分享知识、经验和见解。"
  else if includes (js "36kr.com") host then
    js "36氪是中国领先的科技创业媒体，专注报道创业公司、投资机构和科技趋势。"
  else if includes (js "bilibili.com") host then
    js "B站是中国年轻人聚集的文化社区，涵盖动画、游戏、科技、生活等多元化内容。"
  else js "这是一个热门的中文网站，提供丰富的资讯和内容。".

Definition biliFallback (siteName summary url host : jstring) : jstring :=
  js "
        <div class=" ++ q (js "fallback-content")
        ++ js ">
          <div class=" ++ q (js "content-notice")
        ++ js ">
            <h3>🎬 视频内容预览</h3>
            <p><strong>来源：</strong>"
        ++ siteName
        ++ js "</p>
            <p><strong>说明：</strong>这是一个B站视频链接，无法直接在此页面播放。</p>
          </div>
          
          <div class=" ++ q (js "content-summary")
        ++ js ">
            <h4>📋 内容简介</h4>
            <p>"
        ++ summary
        ++ js "</p>
          </div>
          
          <div class=" ++ q (js "access-options")
        ++ js ">
            <h4>🎥 观看方式</h4>
            <ul>
              <li><strong>直接观看：</strong><a href=" ++ q url
        ++ js " target=" ++ q (js "_blank")
        ++ js ">点击这里打开B站观看</a></li>
              <li><strong>推荐设备：</strong>建议在手机或电脑上观看，获得更好的体验</li>
              <li><strong>互动功能：</strong>B站支持弹幕、评论、点赞等丰富的互动功能</li>
              <li><strong>相关推荐：</strong>观看后可以发现更多相似的优质内容</li>
            </ul>
          </div>
          
          <div class=" ++ q (js "platform-info")
        ++ js ">
            <h4>💡 关于B站</h4>
            <p>"
        ++ getPlatformDescription host
        ++ js "</p>
            <p><strong>特色：</strong>弹幕文化、UP主创作、二次元内容、学习视频、生活记录等。</p>
          </div>
        </div>
      ".

Definition generalFallback (siteName summary url host : jstring) : jstring :=
  js "
      <div class=" ++ q (js "fallback-content")
        ++ js ">
        <div class=" ++ q (js "content-notice")
        ++ js ">
          <h3>📚 内容预览</h3>
          <p><strong>来源：</strong>"
        ++ siteName
        ++ js "</p>
          <p><strong>说明：</strong>由于网站的访问保护机制，我们无法直接获取完整内容。</p>
        </div>
        
        <div class=" ++ q (js "content-summary")
        ++ js ">
          <h4>📋 内容摘要</h4>
          <p>"
        ++ orElse summary (js "这是一个热门话题，吸引了众多用户的关注和讨论。")
        ++ js "</p>
        </div>
        
        <div class=" ++ q (js "access-options")
        ++ js ">
          <h4>🔗 查看方式</h4>
          <ul>
            <li><strong>直接访问：</strong><a href=" ++ q url
        ++ js " target=" ++ q (js "_blank")
        ++ js ">点击这里查看原文</a></li>
            <li><strong>建议：</strong>在浏览器中打开链接以获得最佳阅读体验</li>
            <li><strong>提示：</strong>原文可能包含更丰富的内容、图片和互动功能</li>
          </ul>
        </div>
        
        <div class=" ++ q (js "platform-info")
        ++ js ">
          <h4>💡 平台特色</h4>
          <p>"
        ++ getPlatformDescription host
        ++ js "</p>
        </div>
      </div>
    ".

(** [None] is the [TypeError] of [new URL(url)]. *)
Definition generateFallbackContent `{UrlApi} (url title summary : jstring)
    : option ArticleContent :=
  match newURL url with
  | None => None
  | Some parsed =>
    let host := hostname parsed in
    let siteName := getSiteName host in
    if includes (js "b23.tv") host || includes (js "bilibili.com") host then
      Some {| art_title := orElse title (js "B站热门视频");
              art_content := biliFallback siteName summary url host;
              art_summary := orElse summary (js "点击链接观看B站视频内容。") |}
    else
      Some {| art_title := orElse title (js "热门内容");
              art_content := generalFallback siteName summary url host;
              art_summary :=
                orElse summary (js "由于访问限制，请点击链接查看原文内容。") |}
  end.

(* ===================================================================== *)
(** ** http-server.ts: the webview proxy

    The document tree that [cheerio.load] builds, the selections and
    mutations the proxy performs on it, and its serialisation. *)
(* ===================================================================== *)

#[warnings="-register-all"]
Inductive node :=
| Element (tag : jstring) (attribs : list (jstring * jstring))
          (children : list node)
| Text (data : jstring)
| Comment (data : jstring)
| Directive (data : jstring).

(** [$(el).attr(name)]. *)
Fixpoint attr (name : jstring) (attribs : list (jstring * jstring))
    : option jstring :=
  match attribs with
  | [] => None
  | (k, v) :: rest => if jeqb k name then Some v else attr name rest
  end.

(** [$(el).attr(name, value)] for an attribute that is present. *)
Fixpoint setAttr (name value : jstring) (attribs : list (jstring * jstring))
    : list (jstring * jstring) :=
  match attribs with
  | [] => [(name, value)]
  | (k, v) :: rest =>
    if jeqb k name then (k, value) :: rest
    else (k, v) :: setAttr name value rest
  end.

(** The white-space separated words of a [class] attribute. *)
Fixpoint tokens (s : jstring) : list jstring :=
  match s with
  | [] => [[]]
  | c :: s' =>
    if isJsSpace c then [] :: tokens s'
    else match tokens s' with
         | h :: t => (c :: h) :: t
         | [] => [[c]]
         end
  end.

Definition hasClass (cls : jstring) (attribs : list (jstring * jstring))
    : bool :=
  match attr (js "class") attribs with
  | Some v => existsb (jeqb cls) (tokens v)
  | None => false
  end.

Definition attrContains (name part : jstring)
    (attribs : list (jstring * jstring)) : bool :=
  match attr name attribs with
  | Some v => includes part v
  | None => false
  end.

(** The selector of line 914: classes [ad] and [advertisement], and any
    [class] or [id] that contains [ad-]. *)
Definition isAd (tag : jstring) (attribs : list (jstring * jstring)) : bool :=
  hasClass (js "ad") attribs || hasClass (js "advertisement") attribs
  || attrContains (js "class") (js "ad-") attribs
  || attrContains (js "id") (js "ad-") attribs.

Definition tagIs (name : string) (tag : jstring)
    (attribs : list (jstring * jstring)) : bool :=
  jeqb tag (js name).
Arguments tagIs name%_string.

(** [$(selector).remove()]: the selected elements go with all they
    contain. *)
Fixpoint removeFrom (sel : jstring -> list (jstring * jstring) -> bool)
    (n : node) : list node :=
  match n with
  | Element tag attribs children =>
    if sel tag attribs then []
    else [Element tag attribs (flat_map (removeFrom sel) children)]
  | _ => [n]
  end.

Definition remove (sel : jstring -> list (jstring * jstring) -> bool)
    (doc : list node) : list node :=
  flat_map (removeFrom sel) doc.

(** [$(selector).each(...)] where the callback only touches the attributes
    of the element it visits. *)
Fixpoint eachAttribs
    (f : jstring -> list (jstring * jstring) -> list (jstring * jstring))
    (n : node) : node :=
  match n with
  | Element tag attribs children =>
    Element tag (f tag attribs) (map (eachAttribs f) children)
  | _ => n
  end.

(** [$(selector).append(nodes)]. *)
Fixpoint appendTo (sel : jstring -> list (jstring * jstring) -> bool)
    (extra : list node) (n : node) : node :=
  match n with
  | Element tag attribs children =>
    Element tag attribs
      (map (appendTo sel extra) children
       ++ (if sel tag attribs then extra else []))
  | _ => n
  end.

(** [$(selector)]: the selected elements in document order. *)
Fixpoint selectFrom (sel : jstring -> list (jstring * jstring) -> bool)
    (n : node) : list node :=
  match n with
  | Element tag attribs children =>
    (if sel tag attribs then [n] else [])
    ++ flat_map (selectFrom sel) children
  | _ => []
  end.

Definition select (sel : jstring -> list (jstring * jstring) -> bool)
    (doc : list node) : list node :=
  flat_map (selectFrom sel) doc.

Definition attrOf (name : jstring) (n : node) : option jstring :=
  match n with
  | Element _ attribs _ => attr name attribs
  | _ => None
  end.

(** Serialisation, after the HTML fragment serialisation algorithm that
    [$.html()] follows: void elements have no end tag, text is escaped
    except inside raw-text elements. *)
Definition voidTags : list jstring :=
  map js ["area"; "base"; "basefont"; "bgsound"; "br"; "col"; "embed";
          "frame"; "hr"; "img"; "input"; "keygen"; "link"; "meta"; "param";
          "source"; "track"; "wbr"]%string.

Definition rawTextTags : list jstring :=
  map js ["style"; "script"; "xmp"; "iframe"; "noembed"; "noframes";
          "plaintext"]%string.

Definition isVoid (tag : jstring) : bool := existsb (jeqb tag) voidTags.
Definition isRawText (tag : jstring) : bool := existsb (jeqb tag) rawTextTags.

Definition escapeUnit (inAttr : bool) (c : N) : jstring :=
  if (c =? 38)%N then js "&amp;"
  else if (c =? 160)%N then js "&nbsp;"
  else if inAttr then (if (c =? 34)%N then js "&quot;" else [c])
  else if (c =? 60)%N then js "&lt;"
  else if (c =? 62)%N then js "&gt;"
  else [c].

Definition escape (inAttr : bool) (s : jstring) : jstring :=
  flat_map (escapeUnit inAttr) s.

Definition renderAttribs (attribs : list (jstring * jstring)) : jstring :=
  flat_map (fun kv => js " " ++ fst kv ++ js "=" ++ q (escape true (snd kv)))
           attribs.

Fixpoint render (raw : bool) (n : node) : jstring :=
  match n with
  | Element tag attribs children =>
    js "<" ++ tag ++ renderAttribs attribs ++ js ">"
    ++ (if isVoid tag then []
        else flat_map (render (isRawText tag)) children
             ++ js "</" ++ tag ++ js ">")
  | Text data => if raw then data else escape false data
  | Comment data => js "<!--" ++ data ++ js "-->"
  | Directive data => js "<" ++ data ++ js ">"
  end.

(** [$.html()]. *)
Definition html (doc : list node) : jstring := flat_map (render false) doc.

(** The style sheet of lines 945 to 964. *)
Definition mobileStyle : jstring :=
  js "
          body { 
            font-size: 16px !important; 
            line-height: 1.6 !important;
            padding: 10px !important;
            margin: 0 !important;
            word-wrap: break-word !important;
          }
          img { 
            max-width: 100% !important; 
            height: auto !important; 
            display: block !important;
            margin: 10px 0 !important;
          }
          .sidebar, .ads, .advertisement, [class*=" ++ q (js "sidebar")
         ++ js "], [class*=" ++ q (js "nav")
         ++ js "] {
            display: none !important;
          }
          p, div, article { 
            max-width: 100% !important;
            overflow-wrap: break-word !important;
          }
        ".

(** The nodes that the markup appended to [head] parses to. *)
Definition headExtras : list node :=
  [ Text (js "
        ");
    Element (js "meta")
      [ (js "name", js "viewport");
        (js "content",
         js "width=device-width, initial-scale=1.0, maximum-scale=1.0, user-scalable=no") ]
      [];
    Text (js "
        ");
    Element (js "style") [] [Text mobileStyle];
    Text (js "
      ") ].

Definition generateErrorHtml (url errorMessage : jstring) : jstring :=
  js "
      <!DOCTYPE html>
      <html>
      <head>
        <meta charset=" ++ q (js "utf-8")
  ++ js ">
        <meta name=" ++ q (js "viewport")
  ++ js " content=" ++ q (js "width=device-width, initial-scale=1.0")
  ++ js ">
        <title>页面加载失败</title>
        <style>
          body {
            font-family: -apple-system, BlinkMacSystemFont, 'Segoe UI', Arial, sans-serif;
            padding: 20px;
            background: #f5f5f5;
            color: #333;
            line-height: 1.6;
          }
          .error-container {
            background: white;
            border-radius: 8px;
            padding: 30px;
            text-align: center;
            box-shadow: 0 2px 10px rgba(0,0,0,0.1);
          }
          .error-icon {
            font-size: 48px;
            margin-bottom: 20px;
          }
          .error-title {
            font-size: 24px;
            font-weight: bold;
            margin-bottom: 10px;
            color: #d73a49;
          }
          .error-message {
            color: #666;
            margin-bottom: 20px;
          }
          .error-url {
            background: #f6f8fa;
            padding: 10px;
            border-radius: 4px;
            word-break: break-all;
            font-family: monospace;
            font-size: 14px;
            margin-bottom: 20px;
          }
          .retry-btn {
            background: #0366d6;
            color: white;
            border: none;
            padding: 10px 20px;
            border-radius: 4px;
            cursor: pointer;
            font-size: 16px;
          }
        </style>
      </head>
      <body>
        <div class=" ++ q (js "error-container")
  ++ js ">
          <div class=" ++ q (js "error-icon")
  ++ js ">⚠️</div>
          <div class=" ++ q (js "error-title")
  ++ js ">页面加载失败</div>
          <div class=" ++ q (js "error-message")
  ++ js ">无法加载页面内容，可能是网络连接问题或网站访问限制。</div>
          <div class=" ++ q (js "error-url")
  ++ js ">"
  ++ url
  ++ js "</div>
          <div class=" ++ q (js "error-message")
  ++ js ">错误详情："
  ++ errorMessage
  ++ js "</div>
          <button class=" ++ q (js "retry-btn")
  ++ js " onclick=" ++ q (js "location.reload()")
  ++ js ">重试</button>
        </div>
      </body>
      </html>
    ".

Section Webview.
Context `{UrlApi}.

(** [cheerio.load], which accepts every string. *)
Variable load : jstring -> list node.

Definition fixImg (baseUrl : URL) (tag : jstring)
    (attribs : list (jstring * jstring)) : list (jstring * jstring) :=
  if jeqb tag (js "img") then
    match attr (js "src") attribs with
    | Some src =>
      if negb (jeqb src []) && negb (startsWith (js "http") src)
         && negb (startsWith (js "data:") src)
      then match resolveURL src baseUrl with
           | Some absoluteUrl => setAttr (js "src") absoluteUrl attribs
           | None => attribs
           end
      else attribs
    | None => attribs
    end
  else attribs.

(** [link[rel="stylesheet"]]: the value of [rel] is compared without
    regard to case, as for every enumerated HTML attribute. *)
Definition isStylesheet (tag : jstring) (attribs : list (jstring * jstring))
    : bool :=
  jeqb tag (js "link")
  && match attr (js "rel") attribs with
     | Some v => jeqb (map asciiUpper v) (map asciiUpper (js "stylesheet"))
     | None => false
     end.

Definition fixLink (baseUrl : URL) (tag : jstring)
    (attribs : list (jstring * jstring)) : list (jstring * jstring) :=
  if isStylesheet tag attribs then
    match attr (js "href") attribs with
    | Some href =>
      if negb (jeqb href []) && negb (startsWith (js "http") href)
      then match resolveURL href baseUrl with
           | Some absoluteUrl => setAttr (js "href") absoluteUrl attribs
           | None => attribs
           end
      else attribs
    | None => attribs
    end
  else attribs.

(** The document after the three removals of lines 912 to 914. *)
Definition stripped (doc : list node) : list node :=
  remove isAd (remove (tagIs "iframe") (remove (tagIs "script") doc)).

(** The document that [processHtmlForWebview] serialises. *)
Definition rewritten (baseUrl : URL) (doc : list node) : list node :=
  map (appendTo (tagIs "head") headExtras)
    (map (eachAttribs (fixLink baseUrl))
      (map (eachAttribs (fixImg baseUrl)) (stripped doc))).

(** When [new URL(originalUrl)] throws, the [catch] hands the text back
    as it came. *)
Definition processHtmlForWebview (text originalUrl : jstring) : jstring :=
  match newURL originalUrl with
  | Some baseUrl => html (rewritten baseUrl (load text))
  | None => text
  end.

Definition fetchArticleHtml (url : jstring) (response : AxiosResult jstring)
    : jstring :=
  match response with
  | AxiosOk body => processHtmlForWebview body url
  | AxiosError message => generateErrorHtml url message
  end.
End Webview.

(* ===================================================================== *)
(** ** A small instance of the URL interface

    Enough of the URL standard for the worked examples: [http] and [https]
    URLs written in lower case, references resolved without dot-segment
    removal or percent-encoding.  The general results below hold for every
    instance of [UrlApi]. *)
(* ===================================================================== *)

Record SimpleURL := {
  protocol : jstring;
  host : jstring;
  pathname : jstring;
  search : jstring;
  hash : jstring
}.

(** The longest prefix whose units satisfy [p], and the rest. *)
Fixpoint span (p : N -> bool) (s : jstring) : jstring * jstring :=
  match s with
  | c :: s' =>
    if p c then let '(a, b) := span p s' in (c :: a, b) else ([], s)
  | [] => ([], [])
  end.

Definition isAlpha (c : N) : bool :=
  ((65 <=? c) && (c <=? 90) || (97 <=? c) && (c <=? 122))%N.

Definition isSchemeUnit (c : N) : bool :=
  (isAlpha c || (48 <=? c) && (c <=? 57) || (c =? 43) || (c =? 45)
   || (c =? 46))%N.

(** [s] starts with a scheme: a letter, then letters, digits, [+], [-] or
    [.], then a colon. *)
Definition hasScheme (s : jstring) : bool :=
  match s with
  | c :: s' =>
    isAlpha c && match snd (span isSchemeUnit s') with
                 | d :: _ => (d =? 58)%N
                 | [] => false
                 end
  | [] => false
  end.

Definition parseAfterScheme (scheme body : jstring) : option SimpleURL :=
  let '(authority, rest) :=
    span (fun c => negb ((c =? 47) || (c =? 63) || (c =? 35))%N) body in
  if jeqb authority [] || existsb isJsSpace authority then None
  else
    let '(path, rest2) :=
      span (fun c => negb ((c =? 63) || (c =? 35))%N) rest in
    let '(query, fragment) := span (notUnit 35) rest2 in
    Some {| protocol := scheme; host := authority;
            pathname := orElse path (js "/"); search := query;
            hash := fragment |}.

Definition simpleNewURL (s : jstring) : option SimpleURL :=
  if startsWith (js "https://") s then parseAfterScheme (js "https:") (skipn 8 s)
  else if startsWith (js "http://") s then parseAfterScheme (js "http:") (skipn 7 s)
  else None.

Definition simpleHostname (u : SimpleURL) : jstring :=
  fst (span (notUnit 58) (host u)).

(** The path up to and including its last slash. *)
Fixpoint directory (path : jstring) : jstring :=
  match path with
  | [] => []
  | c :: rest =>
    if existsb (N.eqb 47) rest then c :: directory rest
    else if (c =? 47)%N then [c] else []
  end.

Definition simpleResolve (ref : jstring) (base : SimpleURL) : option jstring :=
  let origin := protocol base ++ js "//" ++ host base in
  if hasScheme ref then Some ref
  else if startsWith (js "//") ref then Some (protocol base ++ ref)
  else if startsWith (js "/") ref then Some (origin ++ ref)
  else if startsWith (js "?") ref then Some (origin ++ pathname base ++ ref)
  else if startsWith (js "#") ref
       then Some (origin ++ pathname base ++ search base ++ ref)
  else if jeqb ref []
       then Some (origin ++ pathname base ++ search base)
  else Some (origin ++ directory (pathname base) ++ ref).

#[export] Instance SimpleUrl : UrlApi := {|
  URL := SimpleURL;
  newURL := simpleNewURL;
  hostname := simpleHostname;
  resolveURL := simpleResolve
|}.

(* ===================================================================== *)
(** ** Vocabulary of the properties *)
(* ===================================================================== *)

(** [x] occurs in [s] as a contiguous piece. *)
Definition within (x s : jstring) : Prop :=
  exists pre post, s = pre ++ x ++ post.

(** Text that no pattern of the cleaner can start in: no [<], no white
    space. *)
Definition plainUnit (c : N) : bool := negb (c =? 60)%N && negb (isJsSpace c).

(** The text [s] holds a start tag of [tag]: [<], the name in any case, then
    white space, [/] or [>]. *)
Fixpoint hasStartTag (tag s : jstring) : bool :=
  match litMatch true (js "<" ++ tag) s with
  | Some (c :: _) => isJsSpace c || (c =? 47)%N || (c =? 62)%N
  | _ => false
  end
  || match s with
     | [] => false
     | _ :: s' => hasStartTag tag s'
     end.

(** The tree [n] holds an element named [name]. *)
Fixpoint holdsElement (name : jstring) (n : node) : bool :=
  match n with
  | Element tag _ children =>
    jeqb tag name || existsb (holdsElement name) children
  | _ => false
  end.

Definition hasElement (name : string) (doc : list node) : bool :=
  existsb (holdsElement (js name)) doc.
Arguments hasElement name%_string.

(** A [src] is relative when it names no scheme ([data:] is one). *)
Definition isRelativeRef (src : jstring) : bool := negb (hasScheme src).

(** What lines 917 to 927 make of the [src] of an image. *)
Definition proxiedSrc `{UrlApi} (baseUrl : URL) (src : jstring) : jstring :=
  if negb (jeqb src []) && negb (startsWith (js "http") src)
     && negb (startsWith (js "data:") src)
  then match resolveURL src baseUrl with
       | Some absoluteUrl => absoluteUrl
       | None => src
       end
  else src.

(** An element through which the proxy lets its content reach the page:
    it is not removed and it has an end tag. *)
Definition passes (tag : jstring) (attribs : list (jstring * jstring)) : bool :=
  negb (tagIs "script" tag attribs) && negb (tagIs "iframe" tag attribs)
  && negb (isAd tag attribs) && negb (isVoid tag).

(** [n] occurs in [doc] below elements that satisfy [ok] only. *)
Inductive under (ok : jstring -> list (jstring * jstring) -> bool) (n : node)
    : list node -> Prop :=
| under_here doc : In n doc -> under ok n doc
| under_below tag attribs children doc :
    In (Element tag attribs children) doc ->
    ok tag attribs = true ->
    under ok n children ->
    under ok n doc.

Definition shownIn (n : node) (doc : list node) : Prop := under passes n doc.

(** The [src] attributes of the images of a document, in document order. *)
Definition imgSrcs (doc : list node) : list (option jstring) :=
  map (attrOf (js "src")) (select (tagIs "img") doc).

(** The [src] attributes of the images in one tree. *)
Definition srcsOf (n : node) : list (option jstring) :=
  map (attrOf (js "src")) (selectFrom (tagIs "img") n).

(** Elements that are not void: their content is serialised. *)
Definition hasEndTag (tag : jstring) (attribs : list (jstring * jstring))
    : bool :=
  negb (isVoid tag).

(** [x] is the end of [s]. *)
Fixpoint endsWith (x s : jstring) : bool :=
  jeqb x s
  || match s with
     | [] => false
     | _ :: s' => endsWith x s'
     end.

(** The image of the worked example and the tag it must become. *)
Definition relativeImg : node :=
  Element (js "img") [(js "src", js "/a.png")] [].
Definition absoluteImgTag : jstring :=
  js "<img src=" ++ q (js "https://ex.com/a.png") ++ js ">".

(** [results] is what the assembly loop makes of one round of fetches of
    [sources]: entry [i] comes from the fetch of the [i]-th source. *)
Definition assembled (sources : list Z) (results : list (option SiteData))
    : Prop :=
  exists env nowText,
    results = assemble sources (requestPromises sources env) nowText.

(** What every cache of a running server satisfies: an entry sits under
    the key of the request it was assembled for. *)
Definition cacheInv
    (cache : gmap jstring (SimpleCache.entry (list (option SiteData))))
    : Prop :=
  forall key item,
    cache !! key = Some item ->
    exists sources,
      key = cacheKey sources /\ assembled sources (SimpleCache.data item).

(** A round in which every upstream call fails. *)
Definition allFail (env : CallEnv) : CallEnv := {|
  now := now env;
  fetches := fun _ => {| response := AxiosError []; settleMs := 0 |};
  timerWinsTie := timerWinsTie env;
  thrown := thrown env;
  toLocaleString := toLocaleString env
|}.

(** The life time, in minutes, that [getHotNews] gives to what it caches. *)
Definition cachedMinutes (sources : list Z) (timeoutSeconds : Z)
    (env : CallEnv) : Z :=
  let deadline := (timeoutSeconds * 1000)%Z in
  if (allSettledAt sources env <? deadline)%Z then 5%Z
  else if (deadline <? allSettledAt sources env)%Z then 2%Z
  else if timerWinsTie env then 2%Z else 5%Z.

(** ** Worked examples *)

(** Every upstream call fails after [ms] milliseconds. *)
Definition failingEnv (ms : Z) : CallEnv := {|
  now := 1000;
  fetches := fun _ =>
    {| response := AxiosError (js "timeout of 6000ms exceeded");
       settleMs := ms |};
  timerWinsTie := true;
  thrown := None;
  toLocaleString := fun _ => js "2025/1/1 08:00:00"
|}.

(** A page with a script, and the tree it parses to. *)
Definition scriptPage : jstring :=
  js "<html><head><script>alert(1)</script></head><body><p>news</p></body></html>".

Definition scriptPageTree : list node :=
  [ Element (js "html") []
      [ Element (js "head") []
          [ Element (js "script") [] [Text (js "alert(1)")] ];
        Element (js "body") [] [ Element (js "p") [] [Text (js "news")] ] ] ].

(** A page whose image has a relative [src] that begins with the letters
    [http], and the tree it parses to. *)
Definition logoPage : jstring :=
  js "<html><head></head><body><img src=" ++ q (js "httpd/logo.png")
     ++ js "></body></html>".

Definition logoPageTree : list node :=
  [ Element (js "html") []
      [ Element (js "head") [] [];
        Element (js "body") []
          [ Element (js "img") [(js "src", js "httpd/logo.png")] [] ] ] ].

(** The page of the image example, and the tree it parses to. *)
Definition imgPage : jstring :=
  js "<html><head></head><body><img src=" ++ q (js "/a.png")
     ++ js "></body></html>".

Definition imgPageTree : list node :=
  [ Element (js "html") []
      [ Element (js "head") [] [];
        Element (js "body") [] [ relativeImg ] ] ].



(* ===================================================================== *)
(** ** http-server.ts: site tables and URL hints *)
(* ===================================================================== *)

Definition getSiteType (host : jstring) : jstring :=
  if includes (js "zhihu.com") host then js "zhihu"
  else if includes (js "36kr.com") host then js "36kr"
  else if includes (js "bilibili.com") host || includes (js "b23.tv") host
       then js "bilibili"
  else if includes (js "weibo.com") host then js "weibo"
  else if includes (js "douyin.com") host then js "douyin"
  else if includes (js "hupu.com") host then js "hupu"
  else if includes (js "douban.com") host then js "douban"
  else if includes (js "baidu.com") host then js "baidu"
  else js "general".

(** [s.match(r)] for a regex without the [g] flag: the groups of the
    leftmost match. *)
Fixpoint matchFirst (r : regex) (s : jstring) : option (list jstring) :=
  match exec r s with
  | Some (_, caps) => Some caps
  | None =>
    match s with
    | [] => None
    | _ :: s' => matchFirst r s'
    end
  end.

Definition isDigit (c : N) : bool := ((48 <=? c) && (c <=? 57))%N.
Definition isAlnum (c : N) : bool := isAlpha c || isDigit c.

(** Line 530: [question/] followed by digits. *)
Definition questionRe : regex :=
  seqs [ lit "question/"; RGroup (RSeq (RSet isDigit) (RStar true isDigit)) ].

(** Line 543: [BV] followed by letters and digits. *)
Definition bvRe : regex :=
  RGroup (seqs [ lit "BV"; RSet isAlnum; RStar true isAlnum ]).

(** The [pathname] of a parsed URL. *)
Class UrlPathApi `{UrlApi} := {
  pathnameOf : URL -> jstring
}.

#[export] Instance SimpleUrlPath : UrlPathApi := {|
  pathnameOf := pathname
|}.

Record UrlInfo := { info_title : jstring; info_summary : jstring }.

Definition defaultInfoTitle : jstring := js "热门内容".
Definition defaultInfoSummary : jstring :=
  js "由于网站访问限制，暂时无法获取详细内容。".

Definition extractInfoFromUrl `{UrlPathApi} (url : jstring) : UrlInfo :=
  match newURL url with
  | None =>
    {| info_title := defaultInfoTitle; info_summary := defaultInfoSummary |}
  | Some urlObj =>
    let host := hostname urlObj in
    let path := pathnameOf urlObj in
    let '(title, summary) :=
      if includes (js "zhihu.com") host then
        match matchFirst questionRe path with
        | Some _ =>
          (js "知乎问题讨论",
           js "这是一个知乎平台上的热门问题，包含多个回答和讨论。由于访问限制，请点击下方链接查看完整内容。")
        | None => ([], [])
        end
      else if includes (js "36kr.com") host then
        (js "36氪科技资讯", js "36氪平台的科技创业资讯内容。")
      else if includes (js "bilibili.com") host then
        (js "B站内容", js "B站平台的视频或文章内容。")
      else if includes (js "b23.tv") host then
        match matchFirst bvRe path with
        | Some bvMatch =>
          (js "B站视频 - " ++ capture 0 bvMatch,
           js "这是一个B站热门视频内容。B站作为中国最大的弹幕视频网站，汇聚了大量优质的原创内容。由于技术限制，建议直接访问观看完整视频。")
        | None =>
          (js "B站短链接内容", js "B站平台的热门内容，请点击链接查看详情。")
        end
      else if includes (js "weibo.com") host then
        (js "微博热门内容", js "新浪微博平台的热门话题或内容。")
      else if includes (js "douyin.com") host then
        (js "抖音热门内容", js "抖音平台的热门视频或话题。")
      else ([], []) in
    {| info_title := orElse title defaultInfoTitle;
       info_summary := orElse summary defaultInfoSummary |}
  end.

Record SelectorConfig := {
  selector : jstring;
  removeSelectors : list jstring
}.

Definition CONTENT_SELECTORS : gmap jstring SelectorConfig :=
  list_to_map
    [ (js "zhihu",
       {| selector := js ".RichContent-inner, .Post-RichTextContainer, .QuestionAnswer-content, article";
          removeSelectors := map js [".AuthorInfo"; ".ContentItem-actions"; ".Sticky"; ".FollowButton"; ".VoteButton"]%string |});
      (js "36kr",
       {| selector := js ".article-content, .common-width";
          removeSelectors := map js [".author-info"; ".share-button"]%string |});
      (js "bilibili",
       {| selector := js ".article-content, .article-holder";
          removeSelectors := map js [".up-info"; ".video-page-game-card-small"]%string |});
      (js "general",
       {| selector := js "article, .content, .post-content, .article-content, .main-content";
          removeSelectors := map js [".ad"; ".advertisement"; ".share"; ".related"; ".sidebar"]%string |}) ].

(** The configuration written out at lines 443 to 446 for site types
    without an entry. *)
Definition inlineSelectors : SelectorConfig :=
  {| selector := js "article, .content, .post-content, .article-content, .main-content, .RichContent";
     removeSelectors := map js [".ad"; ".advertisement"; ".share"; ".related"; ".AuthorInfo"; ".ContentItem-actions"]%string |}.

(* ===================================================================== *)
(** ** http-server.ts: article extraction

    The cheerio calls of [fetchArticleContent] are an interface: a loaded
    document, the removal of what a selector matches, and the four queries
    the function makes. *)
(* ===================================================================== *)

Class CheerioApi := {
  Doc : Type;
  cheerioLoad : jstring -> Doc;
  removeSelected : jstring -> Doc -> Doc;
  textOf : jstring -> Doc -> jstring;
  firstTextOf : jstring -> Doc -> jstring;
  htmlOf : jstring -> Doc -> option jstring;
  attrOfFirst : jstring -> jstring -> Doc -> option jstring
}.

(** A returned value or a thrown error with its message. *)
Inductive Outcome (A : Type) :=
| Returned (value : A)
| Threw (message : jstring).
Arguments Returned {A} _.
Arguments Threw {A} _.

(** [o || b] for a string that may be [undefined] or [null]. *)
Definition optOr (o : option jstring) (b : jstring) : jstring :=
  match o with
  | Some s => orElse s b
  | None => b
  end.

Definition isRestricted (message : jstring) : bool :=
  includes (js "403") message || includes (js "Forbidden") message
  || includes (js "blocked") message.

Section ArticleContent.
Context `{UrlPathApi} `{CheerioApi}.

(** The message of the [TypeError] that [new URL] throws. *)
Variable invalidUrlMessage : jstring.

(** The [catch] block of [fetchArticleContent]. *)
Definition articleFailure (url message : jstring) : Outcome ArticleContent :=
  let urlInfo := extractInfoFromUrl url in
  if isRestricted message then
    match generateFallbackContent url (info_title urlInfo)
                                  (info_summary urlInfo) with
    | Some article => Returned article
    | None => Threw invalidUrlMessage
    end
  else Threw (js "Failed to fetch article content: " ++ message).

Definition fetchArticleContent (url : jstring) (response : AxiosResult jstring)
    : Outcome ArticleContent :=
  let urlInfo := extractInfoFromUrl url in
  match response with
  | AxiosError message => articleFailure url message
  | AxiosOk body =>
    match newURL url with
    | None => articleFailure url invalidUrlMessage
    | Some parsed =>
      let siteType := getSiteType (hostname parsed) in
      let selectorConfig :=
        match CONTENT_SELECTORS !! siteType with
        | Some config => config
        | None => inlineSelectors
        end in
      let page :=
        fold_left (fun doc sel => removeSelected sel doc)
                  (removeSelectors selectorConfig) (cheerioLoad body) in
      let title :=
        orElse (textOf (js "title") page)
          (orElse (firstTextOf (js "h1") page)
            (orElse (textOf (js ".QuestionHeader-title") page)
              (orElse (textOf (js ".ContentItem-title") page)
                (optOr (attrOfFirst (js "meta[property=" ++ q (js "og:title")
                                     ++ js "]") (js "content") page)
                  (orElse (info_title urlInfo) []))))) in
      let content := optOr (htmlOf (selector selectorConfig) page) [] in
      let content :=
        if jeqb content [] || (jlength (trim content) <? 50)%Z then
          optOr (htmlOf (js ".RichContent-inner") page)
            (optOr (htmlOf (js ".Post-RichTextContainer") page)
              (optOr (htmlOf (js ".QuestionAnswer-content") page)
                (optOr (htmlOf (js "main") page)
                  (optOr (htmlOf (js ".main") page)
                    (optOr (htmlOf (js "body") page) [])))))
        else content in
      let summary :=
        optOr (attrOfFirst (js "meta[name=" ++ q (js "description") ++ js "]")
                           (js "content") page)
          (optOr (attrOfFirst (js "meta[property=" ++ q (js "og:description")
                               ++ js "]") (js "content") page)
            (orElse (textOf (js ".QuestionHeader-detail") page)
              (orElse (substring0 200 (firstTextOf (js "p") page))
                (orElse (info_summary urlInfo) [])))) in
      if (jlength (trim content) <? 10)%Z then
        match generateFallbackContent url (orElse title (info_title urlInfo))
                (orElse summary (info_summary urlInfo)) with
        | Some article => Returned article
        | None => articleFailure url invalidUrlMessage
        end
      else
        Returned
          {| art_title := orElse (trim title)
                            (orElse (info_title urlInfo) (js "无标题"));
             art_content := cleanHtmlForRichText content;
             art_summary := orElse (trim summary)
                              (orElse (info_summary urlInfo) []) |}
    end
  end.
End ArticleContent.

(** The document in which no selector finds anything. *)
#[export] Instance BlankPage : CheerioApi := {|
  Doc := unit;
  cheerioLoad := fun _ => tt;
  removeSelected := fun _ doc => doc;
  textOf := fun _ _ => [];
  firstTextOf := fun _ _ => [];
  htmlOf := fun _ _ => None;
  attrOfFirst := fun _ _ _ => None
|}.

(* ===================================================================== *)
(** ** http-server.ts: the tool handlers *)
(* ===================================================================== *)

(** The object [{ content: [{ type: "text", text }], isError }]. *)
Record ToolResult := { tool_text : jstring; tool_isError : bool }.

(** [item.hot] as a condition and as text. *)
Definition hotText (h : option HotValue) : jstring :=
  match h with
  | Some (HotString s) => s
  | Some (HotNumber n) => if (n =? 0)%Z then [] else numberToString n
  | None => []
  end.

Definition formatItem (item : HotNewsItem) : jstring :=
  numberToString (item_index item) ++ js ". [" ++ item_title item ++ js "]("
  ++ item_url item ++ js ") "
  ++ match hotText (item_hot item) with
     | [] => []
     | heat => js "<small>Heat: " ++ heat ++ js "</small>"
     end.

Definition formatSite (site : SiteData) : jstring :=
  js "
### " ++ site_name site ++ js ":" ++ site_subtitle site ++ js "
> Last updated: " ++ site_update_time site ++ js "
" ++ join (js "
") (map formatItem (site_data site)) ++ js "
".

(** The [map] over the results stops at the first [null], whose [data]
    cannot be read. *)
Fixpoint formatResults (results : list (option SiteData))
    : option (list jstring) :=
  match results with
  | [] => Some []
  | Some site :: rest =>
    match formatResults rest with
    | Some texts => Some (formatSite site :: texts)
    | None => None
    end
  | None :: _ => None
  end.

Section Handlers.
Context `{UrlApi}.
Variable load : jstring -> list node.

(** The message of the [TypeError] raised by reading [data] of [null]. *)
Variable nullDataMessage : jstring.

(** [sources] is [None] when the argument is not an array.  No result of
    [getHotNews] is a string, so the branch for strings is left out. *)
Definition handleGetHotNews (sources : option (list Z)) (env : CallEnv)
    (cache : gmap jstring (SimpleCache.entry (list (option SiteData))))
    : ToolResult
      * gmap jstring (SimpleCache.entry (list (option SiteData))) :=
  match sources with
  | None | Some [] =>
    ({| tool_text := js "Error: " ++ js "Please provide valid source IDs";
        tool_isError := true |}, cache)
  | Some ids =>
    let '(results, cache') := getHotNews ids 8 env cache in
    match formatResults results with
    | Some formattedResults =>
      ({| tool_text := join (js "

") formattedResults; tool_isError := false |}, cache')
    | None =>
      ({| tool_text := js "Error: " ++ nullDataMessage; tool_isError := true |},
       cache')
    end
  end.

(** [url] is the argument as given; the empty string and a missing
    argument are both refused. *)
Definition handleGetArticleHtml (url : option jstring)
    (response : AxiosResult jstring) : ToolResult :=
  match url with
  | None | Some [] =>
    {| tool_text := js "Error: " ++ js "Please provide a valid URL";
       tool_isError := true |}
  | Some address =>
    {| tool_text := fetchArticleHtml load address response;
       tool_isError := false |}
  end.
End Handlers.

(* ===================================================================== *)
(** ** Vocabulary of the further properties *)
(* ===================================================================== *)

(** [P] holds of every element of the tree. *)
Inductive everywhere
    (P : jstring -> list (jstring * jstring) -> list node -> Prop)
    : node -> Prop :=
| everywhere_element tag attribs children :
    P tag attribs children ->
    Forall (everywhere P) children ->
    everywhere P (Element tag attribs children)
| everywhere_text data : everywhere P (Text data)
| everywhere_comment data : everywhere P (Comment data)
| everywhere_directive data : everywhere P (Directive data).

(** The [href] attributes of the style sheet links of a tree. *)
Definition attrsOf (sel : jstring -> list (jstring * jstring) -> bool)
    (name : jstring) (n : node) : list (option jstring) :=
  map (attrOf name) (selectFrom sel n).

(** What lines 929 to 939 make of the [href] of a style sheet link. *)
Definition proxiedHref `{UrlApi} (baseUrl : URL) (href : jstring) : jstring :=
  if negb (jeqb href []) && negb (startsWith (js "http") href)
  then match resolveURL href baseUrl with
       | Some absoluteUrl => absoluteUrl
       | None => href
       end
  else href.

(** The sentinel title of the first fallback item. *)
Definition loadingTitle : jstring := js "数据加载中，请稍候...".

(** A round in which the calls answer as [env] says and nothing else is
    thrown. *)
Definition quiet (env : CallEnv) : Prop := thrown env = None.


(** An upstream answer with one item, and a round in which every call
    returns it at once. *)
Definition sampleNews : HotNewsResponse := {|
  news_success := true;
  news_message := None;
  news_name := js "知乎";
  news_subtitle := js "热榜";
  news_update_time := js "2025-01-01 08:00:00";
  news_data := [ {| item_index := 1; item_title := js "headline";
                    item_url := js "https://www.zhihu.com/question/1";
                    item_hot := Some (HotString (js "12 万热度")) |} ]
|}.

Definition answeringEnv : CallEnv := {|
  now := 1000;
  fetches := fun _ => {| response := AxiosOk sampleNews; settleMs := 300 |};
  timerWinsTie := true;
  thrown := None;
  toLocaleString := fun _ => js "2025/1/1 08:00:00"
|}.


(** Text without markup: no [<] and no double quote. *)
Definition textUnit (c : N) : bool := negb (c =? 60)%N && negb (c =? 34)%N.
Definition markupFree (s : jstring) : bool := forallb textUnit s.

(* ===================================================================== *)
(** * Properties *)
(* ===================================================================== *)

(** ** Strings *)

Lemma startsWith_app (p s : jstring) : startsWith p (p ++ s) = true.
Proof.
  induction p as [|a p IH]; simpl; [reflexivity|].
  rewrite N.eqb_refl. exact IH.
Qed.

Lemma startsWith_inv (p s : jstring) :
  startsWith p s = true -> exists post, s = p ++ post.
Proof.
  revert s. induction p as [|a p IH]; intros s Hs.
  - exists s. reflexivity.
  - destruct s as [|b s]; simpl in Hs; [discriminate|].
    apply andb_prop in Hs as [Hab Hrest].
    apply N.eqb_eq in Hab. subst b.
    destruct (IH _ Hrest) as [post ->]. exists post. reflexivity.
Qed.

Lemma includes_head (p s : jstring) :
  startsWith p s = true -> includes p s = true.
Proof. intros Hs. destruct s; simpl; rewrite Hs; reflexivity. Qed.

Lemma includes_within (p s : jstring) : includes p s = true <-> within p s.
Proof.
  split.
  - induction s as [|c s IH]; simpl; intros Hs.
    + rewrite orb_false_r in Hs. apply startsWith_inv in Hs as [post ->].
      exists [], post. reflexivity.
    + apply orb_prop in Hs as [Hs|Hs].
      * apply startsWith_inv in Hs as [post ->]. exists [], post. reflexivity.
      * destruct (IH Hs) as (pre & post & ->). exists (c :: pre), post.
        reflexivity.
  - intros (pre & post & ->). induction pre as [|c pre IH]; simpl.
    + apply includes_head, startsWith_app.
    + rewrite IH. apply orb_true_r.
Qed.

Lemma within_app_r (x a b : jstring) : within x b -> within x (a ++ b).
Proof.
  intros (pre & post & ->). exists (a ++ pre), post.
  rewrite <- app_assoc. reflexivity.
Qed.

Lemma within_app_l (x a b : jstring) : within x a -> within x (a ++ b).
Proof.
  intros (pre & post & ->). exists pre, (post ++ b).
  rewrite <- !app_assoc. reflexivity.
Qed.

Lemma within_refl (x : jstring) : within x x.
Proof. exists [], []. rewrite app_nil_r. reflexivity. Qed.

Lemma jeqb_eq (a b : jstring) : jeqb a b = true <-> a = b.
Proof. unfold jeqb. apply bool_decide_eq_true. Qed.

Lemma jeqb_neq (a b : jstring) : jeqb a b = false <-> a <> b.
Proof. unfold jeqb. apply bool_decide_eq_false. Qed.

(** ** The TTL cache *)

Section CacheFacts.
Context {V : Type}.
Implicit Types (cache : gmap jstring (SimpleCache.entry V)) (key : jstring).

Lemma get_hit cache key now item :
  cache !! key = Some item ->
  (now <= SimpleCache.expires item)%Z ->
  SimpleCache.get key now cache = (Some (SimpleCache.data item), cache).
Proof.
  intros Hk Hle. unfold SimpleCache.get. rewrite Hk.
  destruct (Z.gtb_spec now (SimpleCache.expires item)); [lia|reflexivity].
Qed.

Lemma get_expired cache key now item :
  cache !! key = Some item ->
  (SimpleCache.expires item < now)%Z ->
  SimpleCache.get key now cache = (None, delete key cache).
Proof.
  intros Hk Hlt. unfold SimpleCache.get. rewrite Hk.
  destruct (Z.gtb_spec now (SimpleCache.expires item)); [reflexivity|lia].
Qed.

Lemma get_some_inv cache key now v cache' :
  SimpleCache.get key now cache = (Some v, cache') ->
  cache' = cache /\ exists item,
    cache !! key = Some item /\ SimpleCache.data item = v
    /\ (now <= SimpleCache.expires item)%Z.
Proof.
  unfold SimpleCache.get. destruct (cache !! key) as [item|] eqn:Hk.
  - destruct (Z.gtb_spec now (SimpleCache.expires item)); intros [= <- <-].
    split; [reflexivity|]. exists item.
    split; [reflexivity|]. split; [reflexivity|lia].
  - intros [=].
Qed.

Lemma get_none_inv cache key now cache' :
  SimpleCache.get key now cache = (None, cache') ->
  cache' = delete key cache.
Proof.
  unfold SimpleCache.get. destruct (cache !! key) as [item|].
  - destruct (now >? SimpleCache.expires item)%Z; intros [=]; congruence.
  - intros [=]; congruence.
Qed.
End CacheFacts.

(** C5, as the code has it: after [set(k, v, t)] at time [t0], a [get(k)] at
    time [now] returns [v] and leaves the cache alone exactly when
    [now <= expires], where [expires = t0 + t * 60 * 1000]; otherwise it
    returns [null] and the entry is evicted.  A second [get] returns the
    same [v] as long as both reads fall within that window. *)
Theorem SimpleCache_get_after_set {V : Type} (key : jstring) (v : V)
    (ttlMinutes t0 now now' : Z) (cache : gmap jstring (SimpleCache.entry V)) :
  let stored := SimpleCache.set key v ttlMinutes t0 cache in
  let expiresAt := (t0 + ttlMinutes * 60 * 1000)%Z in
  SimpleCache.get key now stored
    = (if (now <=? expiresAt)%Z then (Some v, stored)
       else (None, delete key cache))
  /\ fst (SimpleCache.get key now' (snd (SimpleCache.get key now stored)))
    = (if ((now <=? expiresAt) && (now' <=? expiresAt))%Z then Some v
       else None).
Proof.
  intros stored expiresAt.
  assert (Hstored : stored !! key = Some (SimpleCache.Entry v expiresAt)).
  { unfold stored, SimpleCache.set. apply lookup_insert_eq. }
  assert (Hfirst : SimpleCache.get key now stored
    = (if (now <=? expiresAt)%Z then (Some v, stored)
       else (None, delete key cache))).
  { destruct (Z.leb_spec now expiresAt) as [Hle|Hgt].
    - rewrite (get_hit _ _ _ _ Hstored); [reflexivity|exact Hle].
    - rewrite (get_expired _ _ _ _ Hstored); [|exact Hgt].
      unfold stored, SimpleCache.set. rewrite delete_insert_eq. reflexivity. }
  split; [exact Hfirst|].
  rewrite Hfirst.
  destruct (Z.leb_spec now expiresAt) as [Hle|Hgt]; simpl.
  - destruct (Z.leb_spec now' expiresAt) as [Hle'|Hgt'].
    + rewrite (get_hit _ _ _ _ Hstored); [reflexivity|exact Hle'].
    + rewrite (get_expired _ _ _ _ Hstored); [reflexivity|exact Hgt'].
  - unfold SimpleCache.get. rewrite lookup_delete_eq. reflexivity.
Qed.

(** C5 as the specification words it fails at the instant of expiry: an
    entry written at time 0 for 5 minutes is still served at 300000 ms,
    which is not before [expires]. *)
Lemma SimpleCache_serves_at_expiry :
  let stored := SimpleCache.set (js "k") 7%Z 5 0 (∅ : gmap jstring (SimpleCache.entry Z)) in
  SimpleCache.get (js "k") 300000 stored = (Some 7%Z, stored)
  /\ ~ (300000 < 0 + 5 * 60 * 1000)%Z.
Proof.
  split; [|lia].
  apply (get_hit _ _ _ (SimpleCache.Entry 7%Z 300000)); [|simpl; lia].
  unfold SimpleCache.set. apply lookup_insert_eq.
Qed.

(** ** The rich-text cleaner *)

Lemma exec_seq_lit (ci : bool) (l : jstring) (r2 : regex) (c : N)
    (rest : jstring) :
  match l with
  | a :: _ => unitMatches ci a c
  | [] => true
  end = false ->
  exec (RSeq (RLit ci l) r2) (c :: rest) = None.
Proof.
  intros Hl. unfold exec. cbn [rmatch].
  destruct l as [|a l]; [discriminate|].
  cbn [litMatch]. rewrite Hl. reflexivity.
Qed.

Lemma exec_seq_set (p : N -> bool) (r2 : regex) (c : N) (rest : jstring) :
  p c = false -> exec (RSeq (RSet p) r2) (c :: rest) = None.
Proof. intros Hp. unfold exec. cbn [rmatch]. rewrite Hp. reflexivity. Qed.

Lemma plainUnit_lt (c : N) : plainUnit c = true -> (60 =? c)%N = false.
Proof.
  unfold plainUnit. intros Hc. apply andb_prop in Hc as [Hc _].
  apply negb_true_iff in Hc. rewrite N.eqb_sym. exact Hc.
Qed.

Lemma plainUnit_space (c : N) : plainUnit c = true -> isJsSpace c = false.
Proof.
  unfold plainUnit. intros Hc. apply andb_prop in Hc as [_ Hc].
  apply negb_true_iff in Hc. exact Hc.
Qed.

Lemma plainUnit_lt_ci (c : N) :
  plainUnit c = true -> unitMatches true 60 c = false.
Proof.
  intros Hc. apply plainUnit_lt in Hc. apply N.eqb_neq in Hc.
  unfold unitMatches, asciiUpper. apply N.eqb_neq.
  change ((97 <=? 60) && (60 <=? 122))%N with false. cbv iota.
  destruct ((97 <=? c) && (c <=? 122))%N eqn:E; [|exact Hc].
  apply andb_prop in E as [E1 E2].
  apply N.leb_le in E1. apply N.leb_le in E2. lia.
Qed.

(** A pass whose pattern cannot start at a plain unit, and does not match
    the empty text, leaves plain text as it is. *)
Lemma replaceAll_plain (r : regex) (repl : list jstring -> jstring)
    (s : jstring) :
  (forall c rest, plainUnit c = true -> exec r (c :: rest) = None) ->
  exec r [] = None ->
  Forall (fun c => plainUnit c = true) s ->
  replaceAll r repl s = s.
Proof.
  intros Hstart Hempty Hs. unfold replaceAll.
  induction Hs as [|c s Hc Hs IH]; cbn [replaceAllFrom].
  - rewrite Hempty. reflexivity.
  - rewrite (Hstart c s Hc), IH. reflexivity.
Qed.

Lemma tagBlock_plain (tag : jstring) (repl : list jstring -> jstring)
    (s : jstring) :
  Forall (fun c => plainUnit c = true) s ->
  replaceAll (tagBlock tag) repl s = s.
Proof.
  apply replaceAll_plain.
  - intros c rest Hc. apply exec_seq_lit. cbn. apply plainUnit_lt_ci, Hc.
  - reflexivity.
Qed.

Ltac starts_with_lt :=
  apply replaceAll_plain;
  [ intros ? ? ?Hc; apply exec_seq_lit; cbn; apply plainUnit_lt, Hc
  | reflexivity ].

Lemma richTextPasses_plain (s : jstring) :
  Forall (fun c => plainUnit c = true) s -> richTextPasses s = s.
Proof.
  intros Hs. unfold richTextPasses.
  assert (Htags : forall tags,
    fold_left (fun acc tag => replaceAll (tagBlock tag) (fun _ => []) acc)
              tags s = s).
  { intros tags. induction tags as [|tag tags IH]; [reflexivity|].
    cbn [fold_left]. rewrite tagBlock_plain by exact Hs. exact IH. }
  rewrite Htags.
  assert (H1 : replaceAll emptyBoxRe (fun _ => []) s = s) by (revert Hs; starts_with_lt).
  rewrite H1.
  assert (H2 : forall f, replaceAll imgRe f s = s) by (intros f; revert Hs; starts_with_lt).
  rewrite H2.
  assert (H3 : replaceAll attrRe (fun _ => []) s = s).
  { revert Hs. apply replaceAll_plain; [|reflexivity].
    intros c rest Hc. apply exec_seq_set, plainUnit_space, Hc. }
  rewrite H3.
  assert (H4 : forall f, replaceAll boxOpenRe f s = s) by (intros f; revert Hs; starts_with_lt).
  rewrite H4.
  assert (H5 : forall f, replaceAll boxCloseRe f s = s) by (intros f; revert Hs; starts_with_lt).
  rewrite H5.
  assert (H6 : forall f, replaceAll nestedOpenRe f s = s) by (intros f; revert Hs; starts_with_lt).
  rewrite H6.
  assert (H7 : forall f, replaceAll nestedCloseRe f s = s) by (intros f; revert Hs; starts_with_lt).
  rewrite H7.
  revert Hs. starts_with_lt.
Qed.

Lemma trimStart_plain (s : jstring) :
  Forall (fun c => plainUnit c = true) s -> trimStart s = s.
Proof.
  intros Hs. destruct Hs as [|c s Hc Hs]; [reflexivity|].
  cbn [trimStart]. rewrite (plainUnit_space c Hc). reflexivity.
Qed.

Lemma trimEnd_plain (s : jstring) :
  Forall (fun c => plainUnit c = true) s -> trimEnd s = s.
Proof.
  intros Hs. induction Hs as [|c s Hc Hs IH]; [reflexivity|].
  cbn [trimEnd]. rewrite IH, (plainUnit_space c Hc).
  destruct s; reflexivity.
Qed.

(** On a text without [<] and without white space the cleaner only applies
    its two length rules. *)
Lemma cleanHtmlForRichText_plain (s : jstring) :
  s <> [] ->
  Forall (fun c => plainUnit c = true) s ->
  cleanHtmlForRichText s
  = if (jlength s <? 10)%Z then stillLoading
    else if (lengthCeiling <? jlength s)%Z
         then substring0 lengthCeiling s ++ js "...</p>"
         else s.
Proof.
  intros Hne Hs. destruct s as [|c s]; [contradiction|].
  unfold cleanHtmlForRichText.
  rewrite (richTextPasses_plain _ Hs).
  assert (Htext : replaceAll anyTagRe (fun _ => []) (c :: s) = c :: s)
    by (revert Hs; starts_with_lt).
  rewrite Htext. unfold trim.
  rewrite (trimStart_plain _ Hs), (trimEnd_plain _ Hs). reflexivity.
Qed.

Lemma noContent_length : jlength noContent = 11%Z.
Proof. reflexivity. Qed.

Lemma stillLoading_length : jlength stillLoading = 21%Z.
Proof. reflexivity. Qed.

Lemma ellipsis_length : length (js "...</p>") = 7%nat.
Proof. reflexivity. Qed.

(** C9: the cleaner is a total function of its input, on the empty string it
    answers the fixed placeholder for missing content, and it never answers
    the empty string. *)
Theorem cleanHtmlForRichText_never_empty :
  cleanHtmlForRichText (js EmptyString) = js "<p>暂无内容</p>"
  /\ forall html : jstring, cleanHtmlForRichText html <> [].
Proof.
  split; [reflexivity|].
  intros html. unfold cleanHtmlForRichText.
  destruct html as [|c html]; [discriminate|].
  set (cleanHtml := richTextPasses (c :: html)).
  destruct (jlength (trim (replaceAll anyTagRe (fun _ => []) cleanHtml)) <? 10)%Z
    eqn:Etext; [discriminate|].
  destruct (lengthCeiling <? jlength cleanHtml)%Z.
  - intros Happ. apply app_eq_nil in Happ as [_ Happ]. discriminate.
  - intros Hnil. rewrite Hnil in Etext. discriminate.
Qed.

(** C4, as the code has it: the result never has more than 50007 units:
    50000 units of cleaned text and the 7 units of the closing marker. *)
Theorem cleanHtmlForRichText_length_bound (html : jstring) :
  (jlength (cleanHtmlForRichText html) <= lengthCeiling + 7)%Z.
Proof.
  unfold cleanHtmlForRichText.
  destruct html as [|c html]; [rewrite noContent_length; unfold lengthCeiling; lia|].
  set (cleanHtml := richTextPasses (c :: html)).
  destruct (jlength (trim (replaceAll anyTagRe (fun _ => []) cleanHtml)) <? 10)%Z.
  { rewrite stillLoading_length. unfold lengthCeiling. lia. }
  destruct (Z.ltb_spec lengthCeiling (jlength cleanHtml)) as [Hlong|Hshort].
  - unfold jlength, substring0. rewrite length_app, length_take, ellipsis_length.
    unfold lengthCeiling. lia.
  - lia.
Qed.

(** C4 as the specification words it fails on 50001 letters [a]: the result
    has 50007 units. *)
Lemma cleanHtmlForRichText_exceeds_ceiling :
  jlength (cleanHtmlForRichText (repeat 97%N (Z.to_nat 50001))) = 50007%Z
  /\ (50000 < 50007)%Z.
Proof.
  split; [|lia].
  remember (Z.to_nat 50001) as n eqn:Hn.
  assert (Hlen : jlength (repeat 97%N n) = 50001%Z).
  { unfold jlength. rewrite repeat_length. lia. }
  rewrite cleanHtmlForRichText_plain.
  - rewrite Hlen.
    change (50001 <? 10)%Z with false.
    change (lengthCeiling <? 50001)%Z with true. cbv iota.
    unfold jlength, substring0, lengthCeiling.
    rewrite length_app, length_take, repeat_length, ellipsis_length. lia.
  - intros Hnil. rewrite Hnil in Hlen. discriminate.
  - clear. induction n; constructor; [reflexivity|assumption].
Qed.

(** C3 at a failing input: an [input] element, which never has an end tag,
    is on the list of tags to remove and comes out untouched. *)
Theorem cleanHtmlForRichText_keeps_input_tag :
  let html := js "<p>Hello world, this is text</p><input type="
              ++ q (js "text") ++ js ">" in
  In (js "input") unsupportedTags
  /\ cleanHtmlForRichText html = html
  /\ hasStartTag (js "input") (cleanHtmlForRichText html) = true.
Proof.
  vm_compute. split; [|split; reflexivity].
  do 6 right. left. reflexivity.
Qed.

(** ** Cache keys *)

Lemma ofAscii_inj (a b : string) : ofAscii a = ofAscii b -> a = b.
Proof.
  unfold ofAscii. intros Hab.
  rewrite <- (string_of_list_ascii_of_string a),
          <- (string_of_list_ascii_of_string b).
  f_equal. revert Hab.
  generalize (list_ascii_of_string a) (list_ascii_of_string b).
  intros l. induction l as [|x l IH]; intros [|y m] Hlm;
    try discriminate; [reflexivity|].
  injection Hlm as Hxy Hlm.
  f_equal; [|apply IH, Hlm].
  rewrite <- (ascii_N_embedding x), <- (ascii_N_embedding y), Hxy.
  reflexivity.
Qed.

Lemma numberToString_inj (a b : Z) :
  numberToString a = numberToString b -> a = b.
Proof.
  unfold numberToString. intros Hab. apply ofAscii_inj in Hab.
  assert (Hint : Some (Z.to_int a) = Some (Z.to_int b)).
  { rewrite <- (NilEmpty.isi (Z.to_int a)), <- (NilEmpty.isi (Z.to_int b)), Hab.
    reflexivity. }
  injection Hint as Hint.
  rewrite <- (DecimalZ.of_to a), <- (DecimalZ.of_to b), Hint. reflexivity.
Qed.

Lemma numberToString_nonempty (z : Z) : numberToString z <> [].
Proof.
  intros Hnil.
  assert (Hz : numberToString z = numberToString 0).
  { rewrite Hnil. unfold numberToString in *.
    destruct (NilEmpty.string_of_int (Z.to_int z)) eqn:E; [|discriminate].
    pose proof (NilEmpty.isi (Z.to_int z)) as Hisi. rewrite E in Hisi.
    cbn in Hisi. injection Hisi as Hisi.
    pose proof (DecimalZ.of_to z) as Hof. rewrite <- Hisi in Hof.
    cbn in Hof. subst z. discriminate. }
  apply numberToString_inj in Hz. subst z. discriminate.
Qed.

Lemma string_of_uint_digits (d : Decimal.uint) :
  Forall (fun c => c <> 95%N) (ofAscii (NilEmpty.string_of_uint d)).
Proof.
  induction d; cbn; constructor; try exact IHd; discriminate.
Qed.

Lemma numberToString_no_separator (z : Z) :
  Forall (fun c => c <> 95%N) (numberToString z).
Proof.
  unfold numberToString. destruct (Z.to_int z) as [d|d]; cbn.
  - apply string_of_uint_digits.
  - constructor; [discriminate|apply string_of_uint_digits].
Qed.

Lemma split_plain (c : N) (x : jstring) :
  Forall (fun u => u <> c) x -> split c x = [x].
Proof.
  induction 1 as [|u x Hu Hx IH]; [reflexivity|].
  cbn [split]. apply N.eqb_neq in Hu. rewrite Hu, IH. reflexivity.
Qed.

Lemma split_app (c : N) (x rest : jstring) :
  Forall (fun u => u <> c) x ->
  split c (x ++ c :: rest) = x :: split c rest.
Proof.
  induction 1 as [|u x Hu Hx IH]; cbn [split app].
  - rewrite N.eqb_refl. reflexivity.
  - apply N.eqb_neq in Hu. rewrite Hu, IH. reflexivity.
Qed.

Lemma split_join (c : N) (l : list jstring) :
  l <> [] ->
  Forall (Forall (fun u => u <> c)) l ->
  split c (join [c] l) = l.
Proof.
  intros Hne Hl. induction Hl as [|x l Hx Hl IH]; [contradiction|].
  destruct l as [|y l].
  - cbn [join]. apply split_plain, Hx.
  - change (join [c] (x :: y :: l)) with (x ++ c :: join [c] (y :: l)).
    rewrite split_app by exact Hx. f_equal. apply IH. discriminate.
Qed.

Lemma join_nonempty (sep : jstring) (x : jstring) (l : list jstring) :
  x <> [] -> join sep (x :: l) <> [].
Proof.
  intros Hx Hj. destruct l; cbn [join] in Hj; [contradiction|].
  apply app_eq_nil in Hj as [Hj _]. contradiction.
Qed.

Lemma join_inj (c : N) (l1 l2 : list jstring) :
  Forall (fun x => x <> [] /\ Forall (fun u => u <> c) x) l1 ->
  Forall (fun x => x <> [] /\ Forall (fun u => u <> c) x) l2 ->
  join [c] l1 = join [c] l2 -> l1 = l2.
Proof.
  intros H1 H2 Hj.
  destruct l1 as [|x1 l1], l2 as [|x2 l2]; [reflexivity| | |].
  - exfalso. symmetry in Hj. revert Hj. apply join_nonempty.
    apply Forall_cons in H2 as [[Hx _] _]. exact Hx.
  - exfalso. revert Hj. apply join_nonempty.
    apply Forall_cons in H1 as [[Hx _] _]. exact Hx.
  - rewrite <- (split_join c (x1 :: l1)), <- (split_join c (x2 :: l2)), Hj;
      [reflexivity|discriminate| |discriminate|].
    + eapply Forall_impl; [exact H2|]. intros ? [_ ?]. assumption.
    + eapply Forall_impl; [exact H1|]. intros ? [_ ?]. assumption.
Qed.

Lemma cacheKey_inj (s1 s2 : list Z) : cacheKey s1 = cacheKey s2 -> s1 = s2.
Proof.
  unfold cacheKey. intros Hk. apply app_inv_head in Hk.
  change (js "_") with [95%N] in Hk.
  apply join_inj in Hk.
  - revert s2 Hk. induction s1 as [|a s1 IH]; intros [|b s2] Hk;
      try discriminate; [reflexivity|].
    injection Hk as Hab Hk. f_equal; [apply numberToString_inj, Hab|apply IH, Hk].
  - apply Forall_fmap, Forall_true. intros z. split;
      [apply numberToString_nonempty|apply numberToString_no_separator].
  - apply Forall_fmap, Forall_true. intros z. split;
      [apply numberToString_nonempty|apply numberToString_no_separator].
Qed.

(** ** The aggregation *)

Lemma getMaxSourceId_eq : getMaxSourceId = 9%Z.
Proof. reflexivity. Qed.

Lemma known_in_range (sourceId : Z) :
  (1 <= sourceId <= getMaxSourceId)%Z -> is_Some (HOT_NEWS_SOURCES !! sourceId).
Proof.
  rewrite getMaxSourceId_eq. intros Hr.
  assert (Hcases : (sourceId = 1 \/ sourceId = 2 \/ sourceId = 3
                    \/ sourceId = 4 \/ sourceId = 5 \/ sourceId = 6
                    \/ sourceId = 7 \/ sourceId = 8 \/ sourceId = 9)%Z) by lia.
  repeat (destruct Hcases as [->|Hcases]); try subst sourceId;
    (destruct (HOT_NEWS_SOURCES !! _) eqn:E; [eauto|vm_compute in E; discriminate]).
Qed.

Lemma standsFor_known (sourceId : Z) (e : option SiteData) :
  is_Some (HOT_NEWS_SOURCES !! sourceId) -> standsFor sourceId e -> e <> None.
Proof.
  intros [source Hs] [(resp & v & _ & ->)|(t & ->)]; [discriminate|].
  unfold getFallbackSiteData. rewrite Hs. discriminate.
Qed.

Lemma standsFor_unknown (sourceId : Z) (e : option SiteData) :
  HOT_NEWS_SOURCES !! sourceId = None -> standsFor sourceId e -> e = None.
Proof.
  intros Hs [(resp & v & Hf & ->)|(t & ->)].
  - unfold fetchSingleSource in Hf. rewrite Hs in Hf. discriminate.
  - unfold getFallbackSiteData. rewrite Hs. reflexivity.
Qed.

Lemma assemble_length (sources : list Z) (settled : list Settled)
    (nowText : jstring) :
  length (assemble sources settled nowText) = length sources.
Proof. unfold assemble. apply length_imap. Qed.

Lemma assemble_standsFor (sources : list Z) (env : CallEnv)
    (nowText : jstring) :
  Forall2 standsFor sources
    (assemble sources (requestPromises sources env) nowText).
Proof.
  apply Forall2_same_length_lookup_2.
  - symmetry. apply assemble_length.
  - intros i sourceId e Hi He.
    unfold assemble in He. rewrite list_lookup_imap, Hi in He.
    cbn in He. injection He as <-.
    unfold requestPromises. rewrite list_lookup_imap, Hi. cbn.
    destruct (fetchSingleSource sourceId (response (fetches env i))) eqn:Hf.
    + left. eauto.
    + right. eauto.
Qed.

Lemma assembled_standsFor (sources : list Z)
    (results : list (option SiteData)) :
  assembled sources results -> Forall2 standsFor sources results.
Proof. intros (env & nowText & ->). apply assemble_standsFor. Qed.

(** The list of fallbacks is the assembly of a round without any answer. *)
Lemma fallbacks_assembled (sources : list Z) (env : CallEnv)
    (nowText : jstring) :
  assembled sources
    (map (fun sourceId => getFallbackSiteData sourceId nowText) sources).
Proof.
  exists (allFail env), nowText.
  apply list_eq. intros i.
  unfold assemble, requestPromises.
  rewrite list_lookup_fmap, !list_lookup_imap.
  destruct (sources !! i) as [sourceId|]; [|reflexivity].
  cbn. f_equal. unfold fetchSingleSource.
  destruct (HOT_NEWS_SOURCES !! sourceId); reflexivity.
Qed.

Lemma cacheInv_delete cache key : cacheInv cache -> cacheInv (delete key cache).
Proof.
  intros Hinv k item Hk. apply lookup_delete_Some in Hk as [_ Hk].
  exact (Hinv k item Hk).
Qed.

Lemma cacheInv_set cache sources results ttl t :
  cacheInv cache ->
  assembled sources results ->
  cacheInv (SimpleCache.set (cacheKey sources) results ttl t cache).
Proof.
  intros Hinv Hres k item Hk. unfold SimpleCache.set in Hk.
  apply lookup_insert_Some in Hk as [[<- <-]|[_ Hk]].
  - exists sources. split; [reflexivity|exact Hres].
  - exact (Hinv k item Hk).
Qed.

(** One call: the result is an assembly for the request, and the cache it
    leaves satisfies the invariant again. *)
Lemma getHotNews_step cache sources timeoutSeconds env :
  cacheInv cache ->
  assembled sources (fst (getHotNews sources timeoutSeconds env cache))
  /\ cacheInv (snd (getHotNews sources timeoutSeconds env cache)).
Proof.
  intros Hinv. unfold getHotNews.
  assert (Hfresh : forall nowText,
    assembled sources (assemble sources (requestPromises sources env) nowText))
    by (intros nowText; exists env, nowText; reflexivity).
  destruct (SimpleCache.get (cacheKey sources) (now env) cache)
    as [[cached|] cache1] eqn:Hget.
  - apply get_some_inv in Hget as (-> & item & Hitem & <- & _).
    destruct (Hinv _ _ Hitem) as (sources' & Hkey & Hres).
    apply cacheKey_inj in Hkey. subst sources'.
    split; [exact Hres|exact Hinv].
  - apply get_none_inv in Hget. subst cache1.
    pose proof (cacheInv_delete _ (cacheKey sources) Hinv) as Hinv1.
    unfold race. destruct (thrown env) as [message|].
    + destruct (jeqb message (js "TIMEOUT")); cbn [fst snd].
      * split; [apply Hfresh|]. apply cacheInv_set; [exact Hinv1|apply Hfresh].
      * split; [apply fallbacks_assembled, env|exact Hinv1].
    + destruct (allSettledFirst sources timeoutSeconds env).
      * cbn [fst snd]. split; [apply Hfresh|].
        apply cacheInv_set; [exact Hinv1|apply Hfresh].
      * change (jeqb (js "TIMEOUT") (js "TIMEOUT")) with true.
        cbn [fst snd]. split; [apply Hfresh|].
        apply cacheInv_set; [exact Hinv1|apply Hfresh].
Qed.

Lemma reachable_cacheInv cache : reachable cache -> cacheInv cache.
Proof.
  induction 1 as [|cache sources timeoutSeconds env _ IH|cache _ _].
  - intros key item Hk. rewrite lookup_empty in Hk. discriminate.
  - apply getHotNews_step, IH.
  - intros key item Hk. unfold clearCache, SimpleCache.clear in Hk.
    rewrite lookup_empty in Hk. discriminate.
Qed.





(** C10: a requested id that the registry does not know still has its
    place in the result, and what stands there is [null]; the fallback of a
    known id is a site with its name, the fixed subtitle, the time and two
    sentinel items. *)
Theorem getHotNews_unknown_source_is_null cache sources timeoutSeconds env
    (i : nat) (sourceId : Z) :
  reachable cache ->
  sources !! i = Some sourceId ->
  HOT_NEWS_SOURCES !! sourceId = None ->
  let results := fst (getHotNews sources timeoutSeconds env cache) in
  length results = length sources
  /\ results !! i = Some None
  /\ (forall nowText, getFallbackSiteData sourceId nowText = None)
  /\ (forall known nowText,
        is_Some (HOT_NEWS_SOURCES !! known) ->
        exists site,
          getFallbackSiteData known nowText = Some site
          /\ site_subtitle site = js "热榜"
          /\ site_update_time site = nowText
          /\ length (site_data site) = 2%nat).
Proof.
  intros Hreach Hi Hunknown results.
  destruct (getHotNews_step cache sources timeoutSeconds env
              (reachable_cacheInv _ Hreach)) as [Hasm _].
  fold results in Hasm.
  pose proof (assembled_standsFor _ _ Hasm) as Hres.
  split; [symmetry; exact (Forall2_length _ _ _ Hres)|].
  split.
  - destruct (Forall2_lookup_l _ _ _ _ _ Hres Hi) as (e & He & Hstands).
    rewrite He. f_equal. exact (standsFor_unknown _ _ Hunknown Hstands).
  - split.
    + intros nowText. unfold getFallbackSiteData. rewrite Hunknown. reflexivity.
    + intros known nowText [source Hs]. unfold getFallbackSiteData. rewrite Hs.
      eexists. split; [reflexivity|]. repeat split.
Qed.

Lemma getHotNews_unknown_source_is_null_witness :
  let results := fst (getHotNews [1; 42]%Z 8 (failingEnv 6000) ∅) in
  length results = 2%nat /\ results !! 1%nat = Some None.
Proof.
  destruct (getHotNews_unknown_source_is_null ∅ [1; 42]%Z 8 (failingEnv 6000)
              1%nat 42%Z) as (Hlen & Hnull & _).
  - constructor.
  - reflexivity.
  - reflexivity.
  - split; [exact Hlen|exact Hnull].
Defined.

(** ** Degraded article content *)

Lemma endsWith_inv (x s : jstring) :
  endsWith x s = true -> exists front, s = front ++ x.
Proof.
  induction s as [|c s IH]; cbn [endsWith]; intros Hs.
  - rewrite orb_false_r in Hs. apply jeqb_eq in Hs. subst x.
    exists []. reflexivity.
  - apply orb_prop in Hs as [Hs|Hs].
    + apply jeqb_eq in Hs. subst x. exists []. reflexivity.
    + destruct (IH Hs) as [front ->]. exists (c :: front). reflexivity.
Qed.

(** [x ++ y] occurs where a text that ends in [x] is followed by [y]. *)
Lemma within_seam (x y front rest : jstring) :
  endsWith x front = true -> within (x ++ y) (front ++ y ++ rest).
Proof.
  intros Hx. apply endsWith_inv in Hx as [front0 ->].
  exists front0, rest. rewrite <- !app_assoc. reflexivity.
Qed.

Ltac find_seam :=
  repeat first [ apply within_seam; vm_compute; reflexivity
               | apply within_app_r ].




(** ** The webview proxy *)

(** Induction on trees, with the hypothesis available for every child. *)
Lemma node_induction (P : node -> Prop) :
  (forall tag attribs children,
      Forall P children -> P (Element tag attribs children)) ->
  (forall data, P (Text data)) ->
  (forall data, P (Comment data)) ->
  (forall data, P (Directive data)) ->
  forall n, P n.
Proof.
  intros HE HT HC HD. fix IH 1. intros [tag attribs children|d|d|d].
  - apply HE. induction children as [|c children IHc]; constructor.
    + apply IH.
    + exact IHc.
  - apply HT.
  - apply HC.
  - apply HD.
Qed.

Lemma existsb_flat_map {A B : Type} (f : B -> bool) (g : A -> list B)
    (l : list A) :
  existsb f (flat_map g l) = existsb (fun x => existsb f (g x)) l.
Proof.
  induction l as [|x l IH]; [reflexivity|].
  cbn [flat_map existsb]. rewrite existsb_app, IH. reflexivity.
Qed.

Lemma existsb_all_false {A : Type} (f : A -> bool) (l : list A) :
  Forall (fun x => f x = false) l -> existsb f l = false.
Proof.
  induction 1 as [|x l Hx Hl IH]; [reflexivity|].
  cbn [existsb]. rewrite Hx, IH. reflexivity.
Qed.

Lemma existsb_false_inv {A : Type} (f : A -> bool) (l : list A) :
  existsb f l = false -> Forall (fun x => f x = false) l.
Proof.
  induction l as [|x l IH]; cbn [existsb]; intros Hl; constructor.
  - apply orb_false_elim in Hl as [Hx _]. exact Hx.
  - apply orb_false_elim in Hl as [_ Hl]. exact (IH Hl).
Qed.

(** Removing the elements named [name] leaves none of them. *)
Lemma removeFrom_self (name : string) (n : node) :
  existsb (holdsElement (js name)) (removeFrom (tagIs name) n) = false.
Proof.
  induction n as [tag attribs children IH|d|d|d] using node_induction;
    try reflexivity.
  cbn [removeFrom]. unfold tagIs at 1.
  destruct (jeqb tag (js name)) eqn:Etag; [reflexivity|].
  cbn [existsb holdsElement]. rewrite Etag, orb_false_r. cbn [orb].
  rewrite existsb_flat_map. apply existsb_all_false. exact IH.
Qed.

(** A removal does not bring in an element that was not there. *)
Lemma removeFrom_other (name : jstring)
    (sel : jstring -> list (jstring * jstring) -> bool) (n : node) :
  holdsElement name n = false ->
  existsb (holdsElement name) (removeFrom sel n) = false.
Proof.
  induction n as [tag attribs children IH|d|d|d] using node_induction;
    try reflexivity.
  cbn [holdsElement removeFrom]. intros Hn.
  apply orb_false_elim in Hn as [Htag Hch].
  destruct (sel tag attribs); [reflexivity|].
  cbn [existsb holdsElement]. rewrite Htag, orb_false_r. cbn [orb].
  rewrite existsb_flat_map. apply existsb_all_false.
  apply existsb_false_inv in Hch.
  clear -IH Hch. induction IH as [|c children Hc IH IH']; constructor.
  - apply Forall_cons in Hch as [Hc' _]. exact (Hc Hc').
  - apply Forall_cons in Hch as [_ Hch]. exact (IH' Hch).
Qed.

Lemma remove_self (name : string) (doc : list node) :
  hasElement name (remove (tagIs name) doc) = false.
Proof.
  unfold hasElement, remove. rewrite existsb_flat_map.
  apply existsb_all_false, Forall_forall. intros n _. apply removeFrom_self.
Qed.

Lemma remove_other (name : string)
    (sel : jstring -> list (jstring * jstring) -> bool) (doc : list node) :
  hasElement name doc = false -> hasElement name (remove sel doc) = false.
Proof.
  unfold hasElement, remove. intros Hdoc. rewrite existsb_flat_map.
  apply existsb_all_false. apply existsb_false_inv in Hdoc.
  eapply Forall_impl; [exact Hdoc|]. intros n Hn. apply removeFrom_other, Hn.
Qed.

Lemma holdsElement_eachAttribs (name : jstring)
    (f : jstring -> list (jstring * jstring) -> list (jstring * jstring))
    (n : node) :
  holdsElement name (eachAttribs f n) = holdsElement name n.
Proof.
  induction n as [tag attribs children IH|d|d|d] using node_induction;
    try reflexivity.
  cbn [eachAttribs holdsElement]. f_equal.
  induction IH as [|c children Hc IH IH']; [reflexivity|].
  cbn [map existsb]. rewrite Hc, IH'. reflexivity.
Qed.

Lemma holdsElement_appendTo (name : jstring)
    (sel : jstring -> list (jstring * jstring) -> bool) (extra : list node)
    (n : node) :
  existsb (holdsElement name) extra = false ->
  holdsElement name (appendTo sel extra n) = holdsElement name n.
Proof.
  intros Hextra.
  induction n as [tag attribs children IH|d|d|d] using node_induction;
    try reflexivity.
  cbn [appendTo holdsElement]. f_equal. rewrite existsb_app.
  assert (Hsel : existsb (holdsElement name)
                   (if sel tag attribs then extra else []) = false)
    by (destruct (sel tag attribs); [exact Hextra|reflexivity]).
  rewrite Hsel, orb_false_r.
  induction IH as [|c children Hc IH IH']; [reflexivity|].
  cbn [map existsb]. rewrite Hc, IH'. reflexivity.
Qed.

Lemma hasElement_map (name : string) (f : node -> node) (doc : list node) :
  (forall n, holdsElement (js name) (f n) = holdsElement (js name) n) ->
  hasElement name (map f doc) = hasElement name doc.
Proof.
  intros Hf. unfold hasElement.
  induction doc as [|n doc IH]; [reflexivity|].
  cbn [map existsb]. rewrite Hf, IH. reflexivity.
Qed.

Section WebviewFacts.
Context `{UrlApi}.
Variable load : jstring -> list node.

Lemma rewritten_hasElement (name : string) (baseUrl : URL)
    (doc : list node) :
  existsb (holdsElement (js name)) headExtras = false ->
  hasElement name (rewritten baseUrl doc) = hasElement name (stripped doc).
Proof.
  intros Hextra. unfold rewritten.
  rewrite hasElement_map by (intros n; apply holdsElement_appendTo, Hextra).
  rewrite hasElement_map by (intros n; apply holdsElement_eachAttribs).
  rewrite hasElement_map by (intros n; apply holdsElement_eachAttribs).
  reflexivity.
Qed.

End WebviewFacts.


(** ** Image sources *)

Lemma attr_setAttr (name value : jstring) (attribs : list (jstring * jstring)) :
  attr name (setAttr name value attribs) = Some value.
Proof.
  induction attribs as [|[k v] attribs IH]; cbn [setAttr attr].
  - replace (jeqb name name) with true; [reflexivity|].
    symmetry. apply jeqb_eq. reflexivity.
  - destruct (jeqb k name) eqn:Ek; cbn [attr]; rewrite Ek; [reflexivity|exact IH].
Qed.

Lemma map_flat_map {A B C : Type} (h : B -> C) (g : A -> list B) (l : list A) :
  map h (flat_map g l) = flat_map (fun x => map h (g x)) l.
Proof.
  induction l as [|x l IH]; [reflexivity|].
  cbn [flat_map]. rewrite map_app, IH. reflexivity.
Qed.

Lemma flat_map_map {A B C : Type} (g : B -> list C) (f : A -> B) (l : list A) :
  flat_map g (map f l) = flat_map (fun x => g (f x)) l.
Proof.
  induction l as [|x l IH]; [reflexivity|].
  cbn [map flat_map]. rewrite IH. reflexivity.
Qed.

Lemma flat_map_pointwise {A B : Type} (f g : A -> list B) (l : list A) :
  Forall (fun x => f x = g x) l -> flat_map f l = flat_map g l.
Proof.
  induction 1 as [|x l Hx Hl IH]; [reflexivity|].
  cbn [flat_map]. rewrite Hx, IH. reflexivity.
Qed.

Lemma imgSrcs_flat_map (doc : list node) : imgSrcs doc = flat_map srcsOf doc.
Proof. unfold imgSrcs, select. apply map_flat_map. Qed.

Lemma srcsOf_element (tag : jstring) (attribs : list (jstring * jstring))
    (children : list node) :
  srcsOf (Element tag attribs children)
  = (if tagIs "img" tag attribs then [attr (js "src") attribs] else [])
    ++ flat_map srcsOf children.
Proof.
  unfold srcsOf. cbn [selectFrom]. rewrite map_app, map_flat_map.
  destruct (tagIs "img" tag attribs); reflexivity.
Qed.

(** A callback that turns the [src] of an image into [g] of it does so for
    every image of the tree, in order. *)
Lemma srcsOf_eachAttribs
    (f : jstring -> list (jstring * jstring) -> list (jstring * jstring))
    (g : option jstring -> option jstring) (n : node) :
  (forall attribs,
      attr (js "src") (f (js "img") attribs) = g (attr (js "src") attribs)) ->
  srcsOf (eachAttribs f n) = map g (srcsOf n).
Proof.
  intros Hf.
  induction n as [tag attribs children IH|d|d|d] using node_induction;
    try reflexivity.
  cbn [eachAttribs]. rewrite !srcsOf_element, map_app.
  f_equal.
  - unfold tagIs. destruct (jeqb tag (js "img")) eqn:Etag; [|reflexivity].
    apply jeqb_eq in Etag. subst tag. cbn [map]. rewrite Hf. reflexivity.
  - rewrite flat_map_map, map_flat_map. apply flat_map_pointwise, IH.
Qed.

Lemma srcsOf_appendTo (sel : jstring -> list (jstring * jstring) -> bool)
    (extra : list node) (n : node) :
  flat_map srcsOf extra = [] ->
  srcsOf (appendTo sel extra n) = srcsOf n.
Proof.
  intros Hextra.
  induction n as [tag attribs children IH|d|d|d] using node_induction;
    try reflexivity.
  cbn [appendTo]. rewrite !srcsOf_element. f_equal.
  rewrite flat_map_app, flat_map_map.
  assert (Hsel : flat_map srcsOf (if sel tag attribs then extra else []) = [])
    by (destruct (sel tag attribs); [exact Hextra|reflexivity]).
  rewrite Hsel, app_nil_r. apply flat_map_pointwise, IH.
Qed.

(** ** Where an element ends up *)

Lemma under_weaken (ok ok' : jstring -> list (jstring * jstring) -> bool)
    (n : node) (doc : list node) :
  (forall tag attribs, ok tag attribs = true -> ok' tag attribs = true) ->
  under ok n doc -> under ok' n doc.
Proof.
  intros Hok. induction 1 as [doc Hin|tag attribs children doc Hin Hp _ IH].
  - apply under_here, Hin.
  - eapply under_below; [exact Hin|apply Hok, Hp|exact IH].
Qed.

Lemma under_app_l (ok : jstring -> list (jstring * jstring) -> bool)
    (n : node) (doc more : list node) :
  under ok n doc -> under ok n (doc ++ more).
Proof.
  intros Hu. destruct Hu as [doc Hin|tag attribs children doc Hin Hp Hu].
  - apply under_here, in_or_app. left. exact Hin.
  - eapply under_below; [apply in_or_app; left; exact Hin|exact Hp|exact Hu].
Qed.

(** A childless element that the selector spares stays where it is when
    all the elements above it are spared too. *)
Lemma under_remove (ok sel : jstring -> list (jstring * jstring) -> bool)
    (tag0 : jstring) (attribs0 : list (jstring * jstring)) (doc : list node) :
  sel tag0 attribs0 = false ->
  (forall tag attribs, ok tag attribs = true -> sel tag attribs = false) ->
  under ok (Element tag0 attribs0 []) doc ->
  under ok (Element tag0 attribs0 []) (remove sel doc).
Proof.
  intros Hkeep Hok.
  induction 1 as [doc Hin|tag attribs children doc Hin Hp _ IH].
  - apply under_here. unfold remove. apply in_flat_map.
    exists (Element tag0 attribs0 []). split; [exact Hin|].
    cbn [removeFrom]. rewrite Hkeep. left. reflexivity.
  - apply (under_below _ _ tag attribs (remove sel children)).
    + unfold remove at 1. apply in_flat_map.
      exists (Element tag attribs children). split; [exact Hin|].
      cbn [removeFrom]. rewrite (Hok _ _ Hp). left. reflexivity.
    + exact Hp.
    + exact IH.
Qed.

Lemma under_eachAttribs
    (f : jstring -> list (jstring * jstring) -> list (jstring * jstring))
    (tag0 : jstring) (attribs0 : list (jstring * jstring)) (doc : list node) :
  under hasEndTag (Element tag0 attribs0 []) doc ->
  under hasEndTag (Element tag0 (f tag0 attribs0) []) (map (eachAttribs f) doc).
Proof.
  induction 1 as [doc Hin|tag attribs children doc Hin Hp _ IH].
  - apply under_here.
    exact (in_map (eachAttribs f) _ _ Hin).
  - apply (under_below _ _ tag (f tag attribs) (map (eachAttribs f) children)).
    + exact (in_map (eachAttribs f) _ _ Hin).
    + exact Hp.
    + exact IH.
Qed.

Lemma under_appendTo (sel : jstring -> list (jstring * jstring) -> bool)
    (extra : list node) (tag0 : jstring)
    (attribs0 : list (jstring * jstring)) (doc : list node) :
  sel tag0 attribs0 = false ->
  under hasEndTag (Element tag0 attribs0 []) doc ->
  under hasEndTag (Element tag0 attribs0 []) (map (appendTo sel extra) doc).
Proof.
  intros Hsel.
  induction 1 as [doc Hin|tag attribs children doc Hin Hp _ IH].
  - apply under_here.
    apply (in_map (appendTo sel extra)) in Hin.
    cbn [appendTo map app] in Hin. rewrite Hsel in Hin. exact Hin.
  - apply (under_below _ _ tag attribs
             (map (appendTo sel extra) children
              ++ (if sel tag attribs then extra else []))).
    + exact (in_map (appendTo sel extra) _ _ Hin).
    + exact Hp.
    + apply under_app_l, IH.
Qed.

(** What lies below elements with an end tag shows in the serialisation. *)
Lemma under_within (tag0 : jstring) (attribs0 : list (jstring * jstring))
    (children0 : list node) (doc : list node) :
  under hasEndTag (Element tag0 attribs0 children0) doc ->
  forall raw,
    within (render false (Element tag0 attribs0 children0))
           (flat_map (render raw) doc).
Proof.
  induction 1 as [doc Hin|tag attribs children doc Hin Hp _ IH]; intros raw.
  - apply in_split in Hin as (before & after & ->).
    rewrite flat_map_app. apply within_app_r.
    cbn [flat_map]. apply within_app_l.
    cbn [render]. apply within_refl.
  - apply in_split in Hin as (before & after & ->).
    rewrite flat_map_app. apply within_app_r.
    cbn [flat_map]. apply within_app_l.
    cbn [render]. unfold hasEndTag in Hp. apply negb_true_iff in Hp.
    rewrite Hp. do 4 apply within_app_r. apply within_app_l. apply IH.
Qed.

Lemma passes_inv (tag : jstring) (attribs : list (jstring * jstring)) :
  passes tag attribs = true ->
  tagIs "script" tag attribs = false /\ tagIs "iframe" tag attribs = false
  /\ isAd tag attribs = false /\ hasEndTag tag attribs = true.
Proof.
  unfold passes, hasEndTag. intros Hp.
  apply andb_prop in Hp as [Hp Hvoid].
  apply andb_prop in Hp as [Hp Had].
  apply andb_prop in Hp as [Hscript Hiframe].
  apply negb_true_iff in Hscript, Hiframe, Had.
  repeat split; assumption.
Qed.

Section ImageFacts.
Context `{UrlApi}.
Variable load : jstring -> list node.

Lemma fixImg_src (baseUrl : URL) (attribs : list (jstring * jstring)) :
  attr (js "src") (fixImg baseUrl (js "img") attribs)
  = option_map (proxiedSrc baseUrl) (attr (js "src") attribs).
Proof.
  unfold fixImg, proxiedSrc.
  change (jeqb (js "img") (js "img")) with true. cbv iota.
  destruct (attr (js "src") attribs) as [src|] eqn:Esrc; cbn [option_map];
    [|exact Esrc].
  destruct (negb (jeqb src []) && negb (startsWith (js "http") src)
            && negb (startsWith (js "data:") src)); [|exact Esrc].
  destruct (resolveURL src baseUrl); [apply attr_setAttr|exact Esrc].
Qed.

Lemma fixLink_src (baseUrl : URL) (attribs : list (jstring * jstring)) :
  fixLink baseUrl (js "img") attribs = attribs.
Proof. reflexivity. Qed.

Lemma rewritten_imgSrcs (baseUrl : URL) (doc : list node) :
  imgSrcs (rewritten baseUrl doc)
  = map (option_map (proxiedSrc baseUrl)) (imgSrcs (stripped doc)).
Proof.
  unfold rewritten. rewrite !imgSrcs_flat_map, !flat_map_map.
  rewrite map_flat_map. apply flat_map_pointwise, Forall_forall.
  intros n _.
  rewrite srcsOf_appendTo by reflexivity.
  rewrite (srcsOf_eachAttribs (fixLink baseUrl) (fun o => o))
    by (intros attribs; rewrite fixLink_src; reflexivity).
  rewrite map_id.
  apply srcsOf_eachAttribs. intros attribs. apply fixImg_src.
Qed.

Lemma relativeImg_rewritten (baseUrl : URL) (doc : list node) :
  resolveURL (js "/a.png") baseUrl = Some (js "https://ex.com/a.png") ->
  shownIn relativeImg doc ->
  under hasEndTag
    (Element (js "img") [(js "src", js "https://ex.com/a.png")] [])
    (rewritten baseUrl doc).
Proof.
  intros Hresolve Hshown. unfold shownIn, relativeImg in Hshown.
  unfold rewritten, stripped.
  apply under_appendTo; [reflexivity|].
  change [(js "src", js "https://ex.com/a.png")]
    with (fixLink baseUrl (js "img") [(js "src", js "https://ex.com/a.png")]).
  apply under_eachAttribs.
  replace [(js "src", js "https://ex.com/a.png")]
    with (fixImg baseUrl (js "img") [(js "src", js "/a.png")]).
  2:{ unfold fixImg.
      change (jeqb (js "img") (js "img")) with true. cbv iota.
      change (attr (js "src") [(js "src", js "/a.png")])
        with (Some (js "/a.png")). cbv iota.
      change (negb (jeqb (js "/a.png") [])
              && negb (startsWith (js "http") (js "/a.png"))
              && negb (startsWith (js "data:") (js "/a.png"))) with true.
      cbv iota. rewrite Hresolve. reflexivity. }
  apply under_eachAttribs.
  apply (under_weaken passes); [intros tag attribs Hp; apply passes_inv, Hp|].
  apply under_remove; [reflexivity|intros tag attribs Hp; apply passes_inv, Hp|].
  apply under_remove; [reflexivity|intros tag attribs Hp; apply passes_inv, Hp|].
  apply under_remove; [reflexivity|intros tag attribs Hp; apply passes_inv, Hp|].
  exact Hshown.
Qed.

End ImageFacts.



(* ===================================================================== *)
(** * Further properties *)
(* ===================================================================== *)

(** ** The cache, key by key *)

(** X1: writing under one key changes nothing that a read of another key
    sees, and a read of one key leaves the entry of every other key in
    place. *)
Theorem SimpleCache_keys_independent {V : Type} (key key' : jstring) (v : V)
    (ttlMinutes t0 now : Z) (cache : gmap jstring (SimpleCache.entry V)) :
  key' <> key ->
  fst (SimpleCache.get key' now (SimpleCache.set key v ttlMinutes t0 cache))
  = fst (SimpleCache.get key' now cache)
  /\ snd (SimpleCache.get key' now cache) !! key = cache !! key.
Proof.
  intros Hne. split.
  - unfold SimpleCache.get, SimpleCache.set.
    rewrite lookup_insert_ne by congruence.
    destruct (cache !! key') as [item|]; [|reflexivity].
    destruct (now >? SimpleCache.expires item)%Z; reflexivity.
  - unfold SimpleCache.get.
    destruct (cache !! key') as [item|]; cbn [snd].
    + destruct (now >? SimpleCache.expires item)%Z; cbn [snd];
        [apply lookup_delete_ne; congruence|reflexivity].
    + apply lookup_delete_ne. congruence.
Qed.

Lemma SimpleCache_keys_independent_witness :
  fst (SimpleCache.get (js "b") 5
         (SimpleCache.set (js "a") 1%Z 5 0
            (SimpleCache.set (js "b") 2%Z 5 0 ∅)))
  = fst (SimpleCache.get (js "b") 5 (SimpleCache.set (js "b") 2%Z 5 0 ∅)).
Proof.
  apply (SimpleCache_keys_independent (js "a") (js "b") 1%Z 5 0 5).
  discriminate.
Defined.

(** X2: a read after the expiry removes the entry for good: every later
    read of that key, whatever the clock says then, finds nothing and
    leaves the cache as it is. *)
Theorem SimpleCache_expired_read_evicts {V : Type} (key : jstring)
    (item : SimpleCache.entry V) (now now' : Z)
    (cache : gmap jstring (SimpleCache.entry V)) :
  cache !! key = Some item ->
  (SimpleCache.expires item < now)%Z ->
  let evicted := snd (SimpleCache.get key now cache) in
  evicted = delete key cache
  /\ SimpleCache.get key now' evicted = (None, evicted).
Proof.
  intros Hitem Hlate evicted.
  assert (He : evicted = delete key cache)
    by (unfold evicted; rewrite (get_expired _ _ _ _ Hitem Hlate); reflexivity).
  split; [exact He|].
  rewrite He. unfold SimpleCache.get. rewrite lookup_delete_eq.
  f_equal. apply delete_id, lookup_delete_eq.
Qed.

Lemma SimpleCache_expired_read_evicts_witness :
  let cache := SimpleCache.set (js "k") 7%Z 5 0
                 (∅ : gmap jstring (SimpleCache.entry Z)) in
  let evicted := snd (SimpleCache.get (js "k") 300001 cache) in
  evicted = delete (js "k") cache
  /\ SimpleCache.get (js "k") 0 evicted = (None, evicted).
Proof.
  apply (SimpleCache_expired_read_evicts (js "k")
           (SimpleCache.Entry 7%Z 300000) 300001 0).
  - reflexivity.
  - cbn. lia.
Defined.

(** ** The aggregation, call after call *)

(** What a call does on a cache miss when nothing else is thrown. *)
Lemma getHotNews_miss cache sources timeoutSeconds env :
  fst (SimpleCache.get (cacheKey sources) (now env) cache) = None ->
  thrown env = None ->
  let finished := (now env + allSettledAt sources env)%Z in
  let results := assemble sources (requestPromises sources env)
                          (toLocaleString env finished) in
  getHotNews sources timeoutSeconds env cache
  = (results,
     SimpleCache.set (cacheKey sources) results
       (cachedMinutes sources timeoutSeconds env) finished
       (delete (cacheKey sources) cache)).
Proof.
  intros Hmiss Hthrown. unfold getHotNews.
  destruct (SimpleCache.get (cacheKey sources) (now env) cache)
    as [[cached|] cache1] eqn:Hget; [discriminate|].
  apply get_none_inv in Hget. subst cache1.
  unfold race, cachedMinutes, allSettledFirst. rewrite Hthrown.
  destruct (Z.ltb_spec (allSettledAt sources env) (timeoutSeconds * 1000))
    as [Hbefore|Hnot]; cbn [orb]; [reflexivity|].
  destruct (Z.ltb_spec (timeoutSeconds * 1000) (allSettledAt sources env))
    as [Hafter|Htie].
  - destruct (Z.eqb_spec (allSettledAt sources env) (timeoutSeconds * 1000));
      [lia|]. reflexivity.
  - destruct (Z.eqb_spec (allSettledAt sources env) (timeoutSeconds * 1000));
      [|lia]. cbn [andb].
    destruct (timerWinsTie env); reflexivity.
Qed.

(** X3: a second call for the same sources that comes no later than the
    expiry of the entry returns the first result again, whatever the
    upstream calls would answer now, and leaves the cache as it is. *)
Theorem getHotNews_repeat_within_ttl cache sources timeout1 timeout2 env1 env2 :
  fst (SimpleCache.get (cacheKey sources) (now env1) cache) = None ->
  quiet env1 ->
  (now env2 <= now env1 + allSettledAt sources env1
               + cachedMinutes sources timeout1 env1 * 60 * 1000)%Z ->
  let first := getHotNews sources timeout1 env1 cache in
  getHotNews sources timeout2 env2 (snd first) = (fst first, snd first).
Proof.
  intros Hmiss Hquiet Hsoon first. unfold first.
  rewrite (getHotNews_miss _ _ _ _ Hmiss Hquiet). cbn [fst snd].
  unfold getHotNews at 1.
  erewrite get_hit; cycle 1.
  - unfold SimpleCache.set. apply lookup_insert_eq.
  - cbn [SimpleCache.expires]. exact Hsoon.
  - reflexivity.
Qed.

Lemma getHotNews_repeat_within_ttl_witness :
  let first := getHotNews [1; 5]%Z 8 (failingEnv 6000) ∅ in
  getHotNews [1; 5]%Z 8 (failingEnv 100) (snd first) = (fst first, snd first).
Proof.
  apply (getHotNews_repeat_within_ttl ∅ [1; 5]%Z 8 8 (failingEnv 6000)
           (failingEnv 100)).
  - reflexivity.
  - reflexivity.
  - vm_compute. discriminate.
Defined.

(** X4: once the entry has expired, the next call for the same sources
    fetches again: its result is assembled from the upstream answers of
    that call. *)
Theorem getHotNews_refetch_after_expiry cache sources timeout1 timeout2
    env1 env2 :
  fst (SimpleCache.get (cacheKey sources) (now env1) cache) = None ->
  quiet env1 ->
  quiet env2 ->
  (now env1 + allSettledAt sources env1
   + cachedMinutes sources timeout1 env1 * 60 * 1000 < now env2)%Z ->
  let first := getHotNews sources timeout1 env1 cache in
  fst (getHotNews sources timeout2 env2 (snd first))
  = assemble sources (requestPromises sources env2)
      (toLocaleString env2 (now env2 + allSettledAt sources env2)%Z).
Proof.
  intros Hmiss Hquiet1 Hquiet2 Hlate first. unfold first.
  rewrite (getHotNews_miss _ _ _ _ Hmiss Hquiet1). cbn [fst snd].
  rewrite getHotNews_miss; [reflexivity| |exact Hquiet2].
  erewrite get_expired; cycle 1.
  - unfold SimpleCache.set. apply lookup_insert_eq.
  - cbn [SimpleCache.expires]. exact Hlate.
  - reflexivity.
Qed.

Lemma getHotNews_refetch_after_expiry_witness :
  let first := getHotNews [1; 5]%Z 8 (failingEnv 6000) ∅ in
  let later := {| now := 1000000; fetches := fetches (failingEnv 6000);
                  timerWinsTie := true; thrown := None;
                  toLocaleString := fun _ => js "2025/1/1 09:00:00" |} in
  fst (getHotNews [1; 5]%Z 8 later (snd first))
  = assemble [1; 5]%Z (requestPromises [1; 5]%Z later)
      (js "2025/1/1 09:00:00").
Proof.
  apply (getHotNews_refetch_after_expiry ∅ [1; 5]%Z 8 8 (failingEnv 6000)).
  - reflexivity.
  - reflexivity.
  - reflexivity.
  - vm_compute. reflexivity.
Defined.



(** X6: a call touches the cache entry of its own request only: the entry
    of any other list of sources, be it the same ids in another order, is
    what it was. *)
Theorem getHotNews_other_request_untouched cache sources others
    timeoutSeconds env :
  others <> sources ->
  snd (getHotNews sources timeoutSeconds env cache) !! cacheKey others
  = cache !! cacheKey others.
Proof.
  intros Hne.
  assert (Hkey : cacheKey sources <> cacheKey others)
    by (intros Hk; apply cacheKey_inj in Hk; congruence).
  unfold getHotNews.
  destruct (SimpleCache.get (cacheKey sources) (now env) cache)
    as [[cached|] cache1] eqn:Hget.
  - apply get_some_inv in Hget as [-> _]. reflexivity.
  - apply get_none_inv in Hget. subst cache1.
    destruct (race sources timeoutSeconds env) as [raceResult|message].
    + cbn [snd]. unfold SimpleCache.set.
      rewrite lookup_insert_ne by exact Hkey.
      apply lookup_delete_ne, Hkey.
    + destruct (jeqb message (js "TIMEOUT")); cbn [snd].
      * unfold SimpleCache.set. rewrite lookup_insert_ne by exact Hkey.
        apply lookup_delete_ne, Hkey.
      * apply lookup_delete_ne, Hkey.
Qed.

Lemma getHotNews_other_request_untouched_witness :
  snd (getHotNews [1; 2]%Z 8 (failingEnv 6000) ∅) !! cacheKey [2; 1]%Z
  = (∅ : gmap jstring (SimpleCache.entry (list (option SiteData))))
      !! cacheKey [2; 1]%Z.
Proof.
  apply (getHotNews_other_request_untouched ∅ [1; 2]%Z [2; 1]%Z 8
           (failingEnv 6000)).
  discriminate.
Defined.

(** X7: after [clearCache] the next call fetches again, whatever was cached
    before and however fresh it was. *)
Theorem getHotNews_after_clearCache cache sources timeoutSeconds env :
  quiet env ->
  fst (getHotNews sources timeoutSeconds env (clearCache cache))
  = assemble sources (requestPromises sources env)
      (toLocaleString env (now env + allSettledAt sources env)%Z).
Proof.
  intros Hquiet. rewrite getHotNews_miss; [reflexivity| |exact Hquiet].
  unfold clearCache, SimpleCache.clear, SimpleCache.get.
  rewrite lookup_empty. reflexivity.
Qed.

Lemma getHotNews_after_clearCache_witness :
  fst (getHotNews [1]%Z 8 (failingEnv 6000)
         (clearCache (snd (getHotNews [1]%Z 8 (failingEnv 6000) ∅))))
  = assemble [1]%Z (requestPromises [1]%Z (failingEnv 6000))
      (js "2025/1/1 08:00:00").
Proof.
  apply (getHotNews_after_clearCache
           (snd (getHotNews [1]%Z 8 (failingEnv 6000) ∅)) [1]%Z 8
           (failingEnv 6000)).
  reflexivity.
Defined.

(** ** Single sources *)


(** X9: the registered ids are exactly the integers from 1 to the largest
    id, so the range check of the callers admits no unregistered
    integer. *)
Theorem HOT_NEWS_SOURCES_range (sourceId : Z) :
  is_Some (HOT_NEWS_SOURCES !! sourceId)
  <-> (1 <= sourceId <= getMaxSourceId)%Z.
Proof.
  split; [|apply known_in_range].
  intros [source Hsource]. rewrite getMaxSourceId_eq.
  unfold HOT_NEWS_SOURCES in Hsource.
  apply elem_of_list_to_map_2 in Hsource.
  repeat (apply elem_of_cons in Hsource as [Hsource|Hsource];
          [injection Hsource as -> _; lia|]).
  apply elem_of_nil in Hsource. contradiction.
Qed.

(** X10: when every upstream call of a round fails, each registered source
    of the request is answered by its fallback, whose first item bears the
    loading title. *)
Theorem getHotNews_all_failed cache sources timeoutSeconds env :
  fst (SimpleCache.get (cacheKey sources) (now env) cache) = None ->
  quiet env ->
  (forall i, exists message, response (fetches env i) = AxiosError message) ->
  Forall (fun sourceId => is_Some (HOT_NEWS_SOURCES !! sourceId)) sources ->
  let nowText := toLocaleString env (now env + allSettledAt sources env)%Z in
  let results := fst (getHotNews sources timeoutSeconds env cache) in
  results = map (fun sourceId => getFallbackSiteData sourceId nowText) sources
  /\ Forall (fun e => exists site first rest,
                 e = Some site /\ site_data site = first :: rest
                 /\ item_title first = loadingTitle
                 /\ site_update_time site = nowText) results.
Proof.
  intros Hmiss Hquiet Hfail Hknown nowText results.
  assert (Hres : results
    = map (fun sourceId => getFallbackSiteData sourceId nowText) sources).
  { unfold results. rewrite (getHotNews_miss _ _ _ _ Hmiss Hquiet). cbn [fst].
    apply list_eq. intros i. unfold assemble, requestPromises.
    rewrite list_lookup_fmap, !list_lookup_imap.
    destruct (sources !! i) as [sourceId|]; [|reflexivity].
    cbn. f_equal. unfold fetchSingleSource.
    destruct (Hfail i) as [message ->].
    destruct (HOT_NEWS_SOURCES !! sourceId); reflexivity. }
  split; [exact Hres|]. rewrite Hres. apply Forall_fmap.
  eapply Forall_impl; [exact Hknown|].
  intros sourceId [source Hsource]. unfold compose. cbv beta.
  unfold getFallbackSiteData. rewrite Hsource.
  eexists _, _, _. split; [reflexivity|]. split; [reflexivity|].
  split; [unfold loadingTitle; reflexivity|reflexivity].
Qed.

Lemma getHotNews_all_failed_witness :
  let results := fst (getHotNews [1; 5]%Z 8 (failingEnv 9000) ∅) in
  results = map (fun sourceId =>
                   getFallbackSiteData sourceId (js "2025/1/1 08:00:00"))
                [1; 5]%Z.
Proof.
  refine (proj1 (getHotNews_all_failed ∅ [1; 5]%Z 8 (failingEnv 9000)
                   eq_refl eq_refl _ _)).
  - intros i. eexists. reflexivity.
  - repeat constructor; apply known_in_range; rewrite getMaxSourceId_eq; lia.
Defined.

(** X11: on a fresh round the entry of a registered source whose upstream
    call succeeded is the upstream answer itself: name, subtitle, time and
    items are passed through unchanged. *)
Theorem getHotNews_passes_answer_through cache sources timeoutSeconds env
    (i : nat) (sourceId : Z) (news : HotNewsResponse) :
  fst (SimpleCache.get (cacheKey sources) (now env) cache) = None ->
  quiet env ->
  sources !! i = Some sourceId ->
  is_Some (HOT_NEWS_SOURCES !! sourceId) ->
  response (fetches env i) = AxiosOk news ->
  news_success news = true ->
  fst (getHotNews sources timeoutSeconds env cache) !! i
  = Some (Some {| site_name := news_name news;
                  site_subtitle := news_subtitle news;
                  site_update_time := news_update_time news;
                  site_data := news_data news |}).
Proof.
  intros Hmiss Hquiet Hi [source Hsource] Hresp Hok.
  rewrite (getHotNews_miss _ _ _ _ Hmiss Hquiet). cbn [fst].
  unfold assemble, requestPromises.
  rewrite !list_lookup_imap, Hi. cbn.
  unfold fetchSingleSource. rewrite Hsource, Hresp, Hok. reflexivity.
Qed.

Lemma getHotNews_passes_answer_through_witness :
  fst (getHotNews [3; 1]%Z 8 answeringEnv ∅) !! 1%nat
  = Some (Some {| site_name := news_name sampleNews;
                  site_subtitle := news_subtitle sampleNews;
                  site_update_time := news_update_time sampleNews;
                  site_data := news_data sampleNews |}).
Proof.
  apply (getHotNews_passes_answer_through ∅ [3; 1]%Z 8 answeringEnv 1%nat 1%Z
           sampleNews); try reflexivity.
  apply known_in_range. rewrite getMaxSourceId_eq. lia.
Defined.

(** ** The tool handlers *)

Lemma formatResults_none (results : list (option SiteData)) :
  formatResults results = None <-> Exists (fun e => e = None) results.
Proof.
  induction results as [|[site|] results IH]; cbn [formatResults].
  - split; [discriminate|]. intros Hex. inversion Hex.
  - destruct (formatResults results) as [texts|].
    + split; [discriminate|]. intros Hex.
      apply Exists_cons in Hex as [Hex|Hex]; [discriminate|].
      apply IH in Hex. discriminate.
    + split; [|reflexivity]. intros _. apply Exists_cons_tl, IH. reflexivity.
  - split; [|reflexivity]. intros _. apply Exists_cons_hd. reflexivity.
Qed.

Lemma standsFor_null_iff (sources : list Z) (results : list (option SiteData)) :
  Forall2 standsFor sources results ->
  Exists (fun e => e = None) results
  <-> Exists (fun sourceId => HOT_NEWS_SOURCES !! sourceId = None) sources.
Proof.
  induction 1 as [|sourceId e sources results He _ IH].
  - split; intros Hex; inversion Hex.
  - rewrite !Exists_cons, IH.
    assert (Hhead : e = None <-> HOT_NEWS_SOURCES !! sourceId = None).
    { split.
      - intros ->. destruct (HOT_NEWS_SOURCES !! sourceId) eqn:Hs; [|reflexivity].
        exfalso. apply (standsFor_known sourceId None); eauto.
      - intros Hs. exact (standsFor_unknown _ _ Hs He). }
    rewrite Hhead. reflexivity.
Qed.



Ltac find_piece :=
  repeat first [ apply within_app_l; apply within_refl
               | apply within_app_r ].

Lemma generateErrorHtml_shows (url errorMessage : jstring) :
  within url (generateErrorHtml url errorMessage)
  /\ within errorMessage (generateErrorHtml url errorMessage).
Proof. unfold generateErrorHtml. split; find_piece. Qed.



(** ** Article extraction *)

Lemma orElse_nonempty_r (a b : jstring) : b <> [] -> orElse a b <> [].
Proof. intros Hb. destruct a; [exact Hb|discriminate]. Qed.

Lemma orElse_nonempty_l (a b : jstring) : a <> [] -> orElse a b = a.
Proof. intros Ha. destruct a; [contradiction|reflexivity]. Qed.

Lemma cleanHtmlForRichText_nonempty (text : jstring) :
  cleanHtmlForRichText text <> [].
Proof.
  unfold cleanHtmlForRichText.
  destruct text as [|c text]; [discriminate|].
  set (cleanHtml := richTextPasses (c :: text)).
  destruct (jlength (trim (replaceAll anyTagRe (fun _ => []) cleanHtml)) <? 10)%Z
    eqn:Etext; [discriminate|].
  destruct (lengthCeiling <? jlength cleanHtml)%Z.
  - intros Happ. apply app_eq_nil in Happ as [_ Happ]. discriminate.
  - intros Hnil. rewrite Hnil in Etext. discriminate.
Qed.

Lemma within_nonempty (x s : jstring) : x <> [] -> within x s -> s <> [].
Proof.
  intros Hx (pre & post & ->) Hnil.
  apply app_eq_nil in Hnil as [_ Hnil].
  apply app_eq_nil in Hnil as [Hnil _]. contradiction.
Qed.

Lemma biliFallback_links (siteName summary url host : jstring) :
  within (js "<a href=" ++ q url) (biliFallback siteName summary url host).
Proof. unfold biliFallback. find_seam. Qed.

Lemma generalFallback_links (siteName summary url host : jstring) :
  within (js "<a href=" ++ q url) (generalFallback siteName summary url host).
Proof. unfold generalFallback. find_seam. Qed.

Lemma generateFallbackContent_some `{UrlApi} (url title summary : jstring)
    (article : ArticleContent) :
  generateFallbackContent url title summary = Some article ->
  within (js "<a href=" ++ q url) (art_content article)
  /\ art_title article <> [] /\ art_summary article <> []
  /\ (title <> [] -> art_title article = title)
  /\ (summary <> [] -> art_summary article = summary).
Proof.
  unfold generateFallbackContent.
  destruct (newURL url) as [parsed|]; [|discriminate].
  destruct (includes (js "b23.tv") (hostname parsed)
            || includes (js "bilibili.com") (hostname parsed));
    intros [= <-]; cbn [art_title art_content art_summary].
  - split; [apply biliFallback_links|].
    split; [apply orElse_nonempty_r; discriminate|].
    split; [apply orElse_nonempty_r; discriminate|].
    split; apply orElse_nonempty_l.
  - split; [apply generalFallback_links|].
    split; [apply orElse_nonempty_r; discriminate|].
    split; [apply orElse_nonempty_r; discriminate|].
    split; apply orElse_nonempty_l.
Qed.

Lemma generateFallbackContent_parses `{UrlApi} (url title summary : jstring)
    (parsed : URL) :
  newURL url = Some parsed ->
  exists article, generateFallbackContent url title summary = Some article.
Proof.
  intros Hparsed. unfold generateFallbackContent. rewrite Hparsed.
  destruct (includes (js "b23.tv") (hostname parsed)
            || includes (js "bilibili.com") (hostname parsed)); eauto.
Qed.

Section ArticleFacts.
Context `{UrlPathApi} `{CheerioApi}.
Variable invalidUrlMessage : jstring.

Lemma extractInfoFromUrl_nonempty (url : jstring) :
  info_title (extractInfoFromUrl url) <> []
  /\ info_summary (extractInfoFromUrl url) <> [].
Proof.
  unfold extractInfoFromUrl.
  destruct (newURL url) as [urlObj|]; [|split; discriminate].
  match goal with
  | |- context [let '(title, summary) := ?pair in _] =>
    destruct pair as [title summary]
  end.
  cbn [info_title info_summary].
  split; apply orElse_nonempty_r; discriminate.
Qed.

(** X14: when the fetch of an article fails with a message that mentions
    403, Forbidden or blocked, and the URL parses, no error is raised: the
    caller gets the degraded article of that URL, with a link to it and
    with the title and summary guessed from the URL. *)
Theorem fetchArticleContent_restricted (url message : jstring) (parsed : URL) :
  newURL url = Some parsed ->
  isRestricted message = true ->
  exists article,
    fetchArticleContent invalidUrlMessage url (AxiosError message)
    = Returned article
    /\ within (js "<a href=" ++ q url) (art_content article)
    /\ art_title article = info_title (extractInfoFromUrl url)
    /\ art_summary article = info_summary (extractInfoFromUrl url).
Proof.
  intros Hparsed Hrestricted.
  cbn [fetchArticleContent]. unfold articleFailure. rewrite Hrestricted.
  destruct (generateFallbackContent_parses url
              (info_title (extractInfoFromUrl url))
              (info_summary (extractInfoFromUrl url)) parsed Hparsed)
    as [article Harticle].
  rewrite Harticle. exists article. split; [reflexivity|].
  destruct (generateFallbackContent_some _ _ _ _ Harticle)
    as (Hlink & _ & _ & Htitle & Hsummary).
  destruct (extractInfoFromUrl_nonempty url) as [Ht Hs].
  split; [exact Hlink|]. split; [exact (Htitle Ht)|exact (Hsummary Hs)].
Qed.

(** X15: whatever goes wrong, the message of an error raised by the
    extraction is either that of the URL parser or the upstream message
    behind the fixed prefix, and the latter only for a message that
    mentions none of 403, Forbidden and blocked. *)
Theorem fetchArticleContent_thrown_messages (url : jstring)
    (response : AxiosResult jstring) (thrownMessage : jstring) :
  fetchArticleContent invalidUrlMessage url response = Threw thrownMessage ->
  thrownMessage = invalidUrlMessage
  \/ exists cause,
       thrownMessage = js "Failed to fetch article content: " ++ cause
       /\ isRestricted cause = false
       /\ (response = AxiosError cause \/ cause = invalidUrlMessage).
Proof.
  assert (Hfail : forall cause,
    articleFailure invalidUrlMessage url cause = Threw thrownMessage ->
    thrownMessage = invalidUrlMessage
    \/ (thrownMessage = js "Failed to fetch article content: " ++ cause
        /\ isRestricted cause = false)).
  { intros cause. unfold articleFailure.
    destruct (isRestricted cause).
    - destruct (generateFallbackContent url _ _); [discriminate|].
      intros [= <-]. left. reflexivity.
    - intros [= <-]. right. split; reflexivity. }
  unfold fetchArticleContent.
  destruct response as [body|message].
  - destruct (newURL url) as [parsed|] eqn:Hparsed.
    + match goal with
      | |- context [if ?short then _ else _] => destruct short
      end; [|discriminate].
      match goal with
      | |- context [generateFallbackContent url ?t ?s] =>
        destruct (generateFallbackContent_parses url t s parsed Hparsed)
          as [article ->]
      end.
      discriminate.
    + intros Hthrown. destruct (Hfail _ Hthrown) as [Hinv|[Hmsg Hr]];
        [left; exact Hinv|].
      right. exists invalidUrlMessage. auto.
  - intros Hthrown. destruct (Hfail _ Hthrown) as [Hinv|[Hmsg Hr]];
      [left; exact Hinv|].
    right. exists message. auto.
Qed.

(** X16: an article that the extraction returns, extracted or degraded,
    never has an empty title, an empty content or an empty summary. *)
Theorem fetchArticleContent_fields_nonempty (url : jstring)
    (response : AxiosResult jstring) (article : ArticleContent) :
  fetchArticleContent invalidUrlMessage url response = Returned article ->
  art_title article <> [] /\ art_content article <> []
  /\ art_summary article <> [].
Proof.
  assert (Hfallback : forall title summary fallback,
    generateFallbackContent url title summary = Some fallback ->
    art_title fallback <> [] /\ art_content fallback <> []
    /\ art_summary fallback <> []).
  { intros title summary fallback Hf.
    destruct (generateFallbackContent_some _ _ _ _ Hf)
      as (Hlink & Ht & Hs & _).
    split; [exact Ht|]. split; [|exact Hs].
    eapply within_nonempty; [|exact Hlink]. discriminate. }
  assert (Hfail : forall cause,
    articleFailure invalidUrlMessage url cause = Returned article ->
    art_title article <> [] /\ art_content article <> []
    /\ art_summary article <> []).
  { intros cause. unfold articleFailure.
    destruct (isRestricted cause); [|discriminate].
    destruct (generateFallbackContent url _ _) as [fallback|] eqn:Hf;
      [|discriminate].
    intros [= <-]. exact (Hfallback _ _ _ Hf). }
  destruct (extractInfoFromUrl_nonempty url) as [Ht Hs].
  unfold fetchArticleContent.
  destruct response as [body|message]; [|apply Hfail].
  destruct (newURL url) as [parsed|]; [|apply Hfail].
  match goal with
  | |- context [if ?short then _ else _] => destruct short
  end.
  - match goal with
    | |- context [generateFallbackContent url ?t ?s] =>
      destruct (generateFallbackContent url t s) as [fallback|] eqn:Hf
    end; [|apply Hfail].
    intros [= <-]. exact (Hfallback _ _ _ Hf).
  - intros [= <-]. cbn [art_title art_content art_summary].
    split; [apply orElse_nonempty_r, orElse_nonempty_r; discriminate|].
    split; [apply cleanHtmlForRichText_nonempty|].
    apply orElse_nonempty_r.
    rewrite (orElse_nonempty_l _ _ Hs). exact Hs.
Qed.
End ArticleFacts.

Lemma fetchArticleContent_restricted_witness :
  exists article,
    fetchArticleContent (js "Invalid URL") (js "https://www.zhihu.com/question/1")
      (AxiosError (js "Request failed with status code 403"))
    = Returned article
    /\ within (js "<a href=" ++ q (js "https://www.zhihu.com/question/1"))
              (art_content article)
    /\ art_title article = js "知乎问题讨论".
Proof.
  destruct (@fetchArticleContent_restricted SimpleUrl SimpleUrlPath BlankPage
              (js "Invalid URL") (js "https://www.zhihu.com/question/1")
              (js "Request failed with status code 403")
              {| protocol := js "https:"; host := js "www.zhihu.com";
                 pathname := js "/question/1"; search := []; hash := [] |}
              eq_refl eq_refl)
    as (article & Hret & Hlink & Htitle & _).
  exists article. split; [exact Hret|]. split; [exact Hlink|].
  rewrite Htitle. reflexivity.
Defined.

Lemma fetchArticleContent_thrown_messages_witness :
  js "Failed to fetch article content: timeout of 15000ms exceeded"
  = js "Invalid URL"
  \/ exists cause,
       js "Failed to fetch article content: timeout of 15000ms exceeded"
       = js "Failed to fetch article content: " ++ cause
       /\ isRestricted cause = false
       /\ (@AxiosError jstring (js "timeout of 15000ms exceeded")
           = AxiosError cause
           \/ cause = js "Invalid URL").
Proof.
  apply (@fetchArticleContent_thrown_messages SimpleUrl SimpleUrlPath BlankPage
           (js "Invalid URL") (js "https://ex.com/a")
           (AxiosError (js "timeout of 15000ms exceeded"))).
  reflexivity.
Defined.

Lemma fetchArticleContent_fields_nonempty_witness :
  let article :=
    {| art_title := js "热门内容";
       art_content :=
         generalFallback (js "未知网站") (js "由于网站访问限制，暂时无法获取详细内容。")
           (js "https://ex.com/a") (js "ex.com");
       art_summary := js "由于网站访问限制，暂时无法获取详细内容。" |} in
  art_title article <> [] /\ art_content article <> []
  /\ art_summary article <> [].
Proof.
  apply (@fetchArticleContent_fields_nonempty SimpleUrl SimpleUrlPath BlankPage
           (js "Invalid URL") (js "https://ex.com/a") (AxiosOk [])).
  vm_compute. reflexivity.
Defined.

(** X17: the two site tables recognise the same hosts: a host has the
    site type [general] exactly when its site name is the one for unknown
    sites. *)
Theorem getSiteType_general_iff (host : jstring) :
  getSiteType host = js "general" <-> getSiteName host = js "未知网站".
Proof.
  unfold getSiteType, getSiteName.
  repeat match goal with
         | |- context [if ?c then _ else _] =>
           destruct c; [split; discriminate|]
         end.
  split; reflexivity.
Qed.

(** ** The webview proxy, element by element *)

Lemma attr_setAttr_other (name other value : jstring)
    (attribs : list (jstring * jstring)) :
  other <> name ->
  attr other (setAttr name value attribs) = attr other attribs.
Proof.
  intros Hne. induction attribs as [|[k v] attribs IH]; cbn [setAttr attr].
  - replace (jeqb name other) with false; [reflexivity|].
    symmetry. apply jeqb_neq. congruence.
  - destruct (jeqb k name) eqn:Ek; cbn [attr].
    + apply jeqb_eq in Ek. subst k.
      replace (jeqb name other) with false; [reflexivity|].
      symmetry. apply jeqb_neq. congruence.
    + rewrite IH. reflexivity.
Qed.

Lemma everywhere_inv
    (P : jstring -> list (jstring * jstring) -> list node -> Prop)
    (tag : jstring) (attribs : list (jstring * jstring)) (children : list node) :
  everywhere P (Element tag attribs children) ->
  P tag attribs children /\ Forall (everywhere P) children.
Proof. intros Hev. inversion Hev; subst. auto. Qed.

Lemma everywhere_leaf
    (P : jstring -> list (jstring * jstring) -> list node -> Prop) (n : node) :
  match n with
  | Element _ _ _ => False
  | _ => True
  end ->
  everywhere P n.
Proof. destruct n; [contradiction|constructor..]. Qed.

(** After a removal no element that the selector matches is left, at any
    depth. *)
Lemma removeFrom_everywhere
    (sel : jstring -> list (jstring * jstring) -> bool) (n : node) :
  Forall (everywhere (fun tag attribs _ => sel tag attribs = false))
         (removeFrom sel n).
Proof.
  induction n as [tag attribs children IH|d|d|d] using node_induction;
    try (constructor; [constructor|constructor]).
  cbn [removeFrom]. destruct (sel tag attribs) eqn:Esel; [constructor|].
  constructor; [|constructor]. constructor; [exact Esel|].
  clear Esel. induction IH as [|c children Hc _ IH']; cbn [flat_map].
  - constructor.
  - apply Forall_app. split; [exact Hc|exact IH'].
Qed.

Lemma remove_everywhere
    (sel : jstring -> list (jstring * jstring) -> bool) (doc : list node) :
  Forall (everywhere (fun tag attribs _ => sel tag attribs = false))
         (remove sel doc).
Proof.
  unfold remove. induction doc as [|n doc IH]; cbn [flat_map].
  - constructor.
  - apply Forall_app. split; [apply removeFrom_everywhere|exact IH].
Qed.

Lemma everywhere_eachAttribs
    (sel : jstring -> list (jstring * jstring) -> bool)
    (f : jstring -> list (jstring * jstring) -> list (jstring * jstring))
    (n : node) :
  (forall tag attribs, sel tag (f tag attribs) = sel tag attribs) ->
  everywhere (fun tag attribs _ => sel tag attribs = false) n ->
  everywhere (fun tag attribs _ => sel tag attribs = false) (eachAttribs f n).
Proof.
  intros Hf.
  induction n as [tag attribs children IH|d|d|d] using node_induction;
    try solve [intros _; constructor].
  intros Hev. apply everywhere_inv in Hev as [Hhere Hbelow].
  cbn [eachAttribs]. constructor; [rewrite Hf; exact Hhere|].
  clear Hhere. induction IH as [|c children Hc _ IH']; cbn [map].
  - constructor.
  - apply Forall_cons in Hbelow as [Hc' Hbelow].
    constructor; [exact (Hc Hc')|exact (IH' Hbelow)].
Qed.

Lemma everywhere_appendTo
    (sel sel' : jstring -> list (jstring * jstring) -> bool)
    (extra : list node) (n : node) :
  Forall (everywhere (fun tag attribs _ => sel tag attribs = false)) extra ->
  everywhere (fun tag attribs _ => sel tag attribs = false) n ->
  everywhere (fun tag attribs _ => sel tag attribs = false)
             (appendTo sel' extra n).
Proof.
  intros Hextra.
  induction n as [tag attribs children IH|d|d|d] using node_induction;
    try solve [intros _; constructor].
  intros Hev. apply everywhere_inv in Hev as [Hhere Hbelow].
  cbn [appendTo]. constructor; [exact Hhere|].
  apply Forall_app. split.
  - clear Hhere. induction IH as [|c children Hc _ IH']; cbn [map].
    + constructor.
    + apply Forall_cons in Hbelow as [Hc' Hbelow].
      constructor; [exact (Hc Hc')|exact (IH' Hbelow)].
  - destruct (sel' tag attribs); [exact Hextra|constructor].
Qed.

Lemma Forall_everywhere_map
    (P : jstring -> list (jstring * jstring) -> list node -> Prop)
    (f : node -> node) (doc : list node) :
  (forall n, everywhere P n -> everywhere P (f n)) ->
  Forall (everywhere P) doc -> Forall (everywhere P) (map f doc).
Proof.
  intros Hf Hdoc. induction Hdoc as [|n doc Hn _ IH]; cbn [map];
    constructor; [apply Hf, Hn|exact IH].
Qed.

(** Every element that the selector matches ends with the appended nodes. *)
Lemma appendTo_everywhere (sel : jstring -> list (jstring * jstring) -> bool)
    (extra : list node) (n : node) :
  Forall (everywhere (fun tag attribs children =>
            sel tag attribs = true -> exists front, children = front ++ extra))
         extra ->
  everywhere (fun tag attribs children =>
                sel tag attribs = true -> exists front, children = front ++ extra)
             (appendTo sel extra n).
Proof.
  intros Hextra.
  induction n as [tag attribs children IH|d|d|d] using node_induction;
    try constructor.
  - intros Hsel. rewrite Hsel. eauto.
  - apply Forall_app. split.
    + induction IH as [|c children Hc _ IH']; cbn [map]; constructor;
        [exact Hc|exact IH'].
    + destruct (sel tag attribs); [exact Hextra|constructor].
Qed.

Lemma attrsOf_element (sel : jstring -> list (jstring * jstring) -> bool)
    (name tag : jstring) (attribs : list (jstring * jstring))
    (children : list node) :
  attrsOf sel name (Element tag attribs children)
  = (if sel tag attribs then [attr name attribs] else [])
    ++ flat_map (attrsOf sel name) children.
Proof.
  unfold attrsOf. cbn [selectFrom]. rewrite map_app, map_flat_map.
  destruct (sel tag attribs); reflexivity.
Qed.

Lemma attrsOf_eachAttribs (sel : jstring -> list (jstring * jstring) -> bool)
    (name : jstring)
    (f : jstring -> list (jstring * jstring) -> list (jstring * jstring))
    (g : option jstring -> option jstring) (n : node) :
  (forall tag attribs, sel tag (f tag attribs) = sel tag attribs) ->
  (forall tag attribs,
      sel tag attribs = true ->
      attr name (f tag attribs) = g (attr name attribs)) ->
  attrsOf sel name (eachAttribs f n) = map g (attrsOf sel name n).
Proof.
  intros Hsel Hattr.
  induction n as [tag attribs children IH|d|d|d] using node_induction;
    try reflexivity.
  cbn [eachAttribs]. rewrite !attrsOf_element, map_app, Hsel.
  f_equal.
  - destruct (sel tag attribs) eqn:Esel; [|reflexivity].
    cbn [map]. rewrite (Hattr _ _ Esel). reflexivity.
  - rewrite flat_map_map, map_flat_map. apply flat_map_pointwise, IH.
Qed.

Lemma attrsOf_appendTo (sel sel' : jstring -> list (jstring * jstring) -> bool)
    (name : jstring) (extra : list node) (n : node) :
  flat_map (attrsOf sel name) extra = [] ->
  attrsOf sel name (appendTo sel' extra n) = attrsOf sel name n.
Proof.
  intros Hextra.
  induction n as [tag attribs children IH|d|d|d] using node_induction;
    try reflexivity.
  cbn [appendTo]. rewrite !attrsOf_element. f_equal.
  rewrite flat_map_app, flat_map_map.
  assert (Hsel : flat_map (attrsOf sel name)
                   (if sel' tag attribs then extra else []) = [])
    by (destruct (sel' tag attribs); [exact Hextra|reflexivity]).
  rewrite Hsel, app_nil_r. apply flat_map_pointwise, IH.
Qed.

Section ProxyFacts.
Context `{UrlApi}.
Variable load : jstring -> list node.

Lemma fixImg_cases (baseUrl : URL) (tag : jstring)
    (attribs : list (jstring * jstring)) :
  fixImg baseUrl tag attribs = attribs
  \/ tag = js "img"
     /\ exists value, fixImg baseUrl tag attribs = setAttr (js "src") value attribs.
Proof.
  unfold fixImg. destruct (jeqb tag (js "img")) eqn:Etag; [|left; reflexivity].
  apply jeqb_eq in Etag.
  destruct (attr (js "src") attribs) as [src|]; [|left; reflexivity].
  destruct (negb (jeqb src []) && negb (startsWith (js "http") src)
            && negb (startsWith (js "data:") src)); [|left; reflexivity].
  destruct (resolveURL src baseUrl) as [absoluteUrl|]; [|left; reflexivity].
  right. split; [exact Etag|]. eauto.
Qed.

Lemma fixLink_cases (baseUrl : URL) (tag : jstring)
    (attribs : list (jstring * jstring)) :
  fixLink baseUrl tag attribs = attribs
  \/ exists value, fixLink baseUrl tag attribs = setAttr (js "href") value attribs.
Proof.
  unfold fixLink. destruct (isStylesheet tag attribs); [|left; reflexivity].
  destruct (attr (js "href") attribs) as [href|]; [|left; reflexivity].
  destruct (negb (jeqb href []) && negb (startsWith (js "http") href));
    [|left; reflexivity].
  destruct (resolveURL href baseUrl) as [absoluteUrl|]; [|left; reflexivity].
  right. eauto.
Qed.

Lemma isAd_setAttr (name value tag : jstring)
    (attribs : list (jstring * jstring)) :
  js "class" <> name -> js "id" <> name ->
  isAd tag (setAttr name value attribs) = isAd tag attribs.
Proof.
  intros Hclass Hid. unfold isAd, hasClass, attrContains.
  rewrite !(attr_setAttr_other name (js "class")) by exact Hclass.
  rewrite !(attr_setAttr_other name (js "id")) by exact Hid.
  reflexivity.
Qed.

Lemma isAd_fixImg (baseUrl : URL) (tag : jstring)
    (attribs : list (jstring * jstring)) :
  isAd tag (fixImg baseUrl tag attribs) = isAd tag attribs.
Proof.
  destruct (fixImg_cases baseUrl tag attribs) as [->|[_ [value ->]]];
    [reflexivity|].
  apply isAd_setAttr; discriminate.
Qed.

Lemma isAd_fixLink (baseUrl : URL) (tag : jstring)
    (attribs : list (jstring * jstring)) :
  isAd tag (fixLink baseUrl tag attribs) = isAd tag attribs.
Proof.
  destruct (fixLink_cases baseUrl tag attribs) as [->|[value ->]];
    [reflexivity|].
  apply isAd_setAttr; discriminate.
Qed.

(** X18: the document that the proxy serialises holds no element that the
    ad selector matches, at any depth: none with the class [ad] or
    [advertisement], none whose [class] or [id] contains [ad-]. *)
Theorem rewritten_has_no_ads (baseUrl : URL) (doc : list node) :
  Forall (everywhere (fun tag attribs _ => isAd tag attribs = false))
         (rewritten baseUrl doc).
Proof.
  unfold rewritten, stripped.
  apply Forall_everywhere_map.
  { intros n. apply everywhere_appendTo.
    repeat constructor. }
  apply Forall_everywhere_map.
  { intros n. apply everywhere_eachAttribs. apply isAd_fixLink. }
  apply Forall_everywhere_map.
  { intros n. apply everywhere_eachAttribs. apply isAd_fixImg. }
  apply remove_everywhere.
Qed.

(** X19: in the document that the proxy serialises every [head] element
    ends with the viewport [meta] and the mobile [style] that the proxy
    appends. *)
Theorem rewritten_head_ends_with_extras (baseUrl : URL) (doc : list node) :
  Forall (everywhere (fun tag attribs children =>
            tag = js "head" -> exists front, children = front ++ headExtras))
         (rewritten baseUrl doc).
Proof.
  unfold rewritten.
  generalize (map (eachAttribs (fixLink baseUrl))
                (map (eachAttribs (fixImg baseUrl)) (stripped doc))).
  intros inner.
  induction inner as [|n0 inner IHinner]; cbn [map]; constructor;
    [|exact IHinner].
  clear IHinner.
  assert (Hev := appendTo_everywhere (tagIs "head") headExtras n0).
  assert (Hextras : Forall (everywhere (fun tag attribs children =>
            tagIs "head" tag attribs = true ->
            exists front, children = front ++ headExtras)) headExtras).
  { repeat constructor; discriminate. }
  specialize (Hev Hextras). clear Hextras.
  revert Hev. generalize (appendTo (tagIs "head") headExtras n0).
  intros m. induction m as [tag attribs children IH|d|d|d] using node_induction;
    try solve [intros _; constructor].
  intros Hev. apply everywhere_inv in Hev as [Hhere Hbelow].
  constructor.
  - intros ->. apply Hhere. reflexivity.
  - clear Hhere. induction IH as [|c children Hc _ IH']; constructor.
    + apply Forall_cons in Hbelow as [Hc' _]. exact (Hc Hc').
    + apply Forall_cons in Hbelow as [_ Hbelow]. exact (IH' Hbelow).
Qed.

Lemma isStylesheet_setAttr (name value tag : jstring)
    (attribs : list (jstring * jstring)) :
  js "rel" <> name ->
  isStylesheet tag (setAttr name value attribs) = isStylesheet tag attribs.
Proof.
  intros Hrel. unfold isStylesheet.
  rewrite (attr_setAttr_other name (js "rel")) by exact Hrel. reflexivity.
Qed.

Lemma fixLink_href (baseUrl : URL) (tag : jstring)
    (attribs : list (jstring * jstring)) :
  isStylesheet tag attribs = true ->
  attr (js "href") (fixLink baseUrl tag attribs)
  = option_map (proxiedHref baseUrl) (attr (js "href") attribs).
Proof.
  intros Hsheet. unfold fixLink, proxiedHref. rewrite Hsheet.
  destruct (attr (js "href") attribs) as [href|] eqn:Ehref; cbn [option_map];
    [|exact Ehref].
  destruct (negb (jeqb href []) && negb (startsWith (js "http") href));
    [|exact Ehref].
  destruct (resolveURL href baseUrl); [apply attr_setAttr|exact Ehref].
Qed.

(** X20: the [href] attributes of the style sheet links of the output are
    those of the links left after the removals, each replaced by its
    resolution against the page URL when it is not empty, does not begin
    with [http] and can be resolved, and left alone otherwise; a [data:]
    reference is resolved like any other. *)
Theorem rewritten_stylesheet_hrefs (baseUrl : URL) (doc : list node) :
  flat_map (attrsOf isStylesheet (js "href")) (rewritten baseUrl doc)
  = map (option_map (proxiedHref baseUrl))
        (flat_map (attrsOf isStylesheet (js "href")) (stripped doc)).
Proof.
  unfold rewritten. rewrite !flat_map_map, map_flat_map.
  apply flat_map_pointwise, Forall_forall. intros n _.
  rewrite attrsOf_appendTo by reflexivity.
  rewrite (attrsOf_eachAttribs isStylesheet (js "href") (fixLink baseUrl)
             (option_map (proxiedHref baseUrl))).
  - f_equal.
    rewrite (attrsOf_eachAttribs isStylesheet (js "href") (fixImg baseUrl)
               (fun o => o)); [apply map_id| |].
    + intros tag attribs.
      destruct (fixImg_cases baseUrl tag attribs) as [->|[_ [value ->]]];
        [reflexivity|]. apply isStylesheet_setAttr. discriminate.
    + intros tag attribs Hsheet.
      destruct (fixImg_cases baseUrl tag attribs) as [->|[-> _]];
        [reflexivity|]. discriminate.
  - intros tag attribs.
    destruct (fixLink_cases baseUrl tag attribs) as [->|[value ->]];
      [reflexivity|]. apply isStylesheet_setAttr. discriminate.
  - intros tag attribs Hsheet. apply fixLink_href, Hsheet.
Qed.
End ProxyFacts.

(** ** The rich-text cleaner on text and on script blocks *)

Lemma markupFree_cons (c : N) (s : jstring) :
  markupFree (c :: s) = true <-> (c <> 60%N /\ c <> 34%N) /\ markupFree s = true.
Proof.
  unfold markupFree. cbn [forallb]. unfold textUnit at 1.
  rewrite !andb_true_iff, !negb_true_iff, !N.eqb_neq. reflexivity.
Qed.

Lemma markupFree_app (a b : jstring) :
  markupFree (a ++ b) = true <-> markupFree a = true /\ markupFree b = true.
Proof.
  unfold markupFree. rewrite forallb_app, andb_true_iff. reflexivity.
Qed.

Lemma markupFree_suffix (s s' : jstring) :
  s' `suffix_of` s -> markupFree s = true -> markupFree s' = true.
Proof. intros [front ->] Hs. apply markupFree_app in Hs as [_ Hs]. exact Hs. Qed.

Lemma litMatch_suffix (ci : bool) (l s rest : jstring) :
  litMatch ci l s = Some rest -> rest `suffix_of` s.
Proof.
  revert s. induction l as [|a l IH]; intros s; cbn [litMatch].
  - intros [= <-]. reflexivity.
  - destruct s as [|c s]; [discriminate|].
    destruct (unitMatches ci a c); [|discriminate].
    intros Hrest. apply suffix_cons_r, IH, Hrest.
Qed.

Lemma starGreedy_fail {R : Type} (p : N -> bool) (s : jstring)
    (k : jstring -> option R) :
  (forall s', s' `suffix_of` s -> k s' = None) -> starGreedy p s k = None.
Proof.
  induction s as [|c s IH]; intros Hk; cbn [starGreedy].
  - apply Hk. reflexivity.
  - destruct (p c); [|apply Hk; reflexivity].
    rewrite IH; [apply Hk; reflexivity|].
    intros s' Hs'. apply Hk, suffix_cons_r, Hs'.
Qed.

Lemma starLazy_fail {R : Type} (p : N -> bool) (s : jstring)
    (k : jstring -> option R) :
  (forall s', s' `suffix_of` s -> k s' = None) -> starLazy p s k = None.
Proof.
  induction s as [|c s IH]; intros Hk; cbn [starLazy].
  - rewrite Hk by reflexivity. reflexivity.
  - rewrite Hk by reflexivity. destruct (p c); [|reflexivity].
    apply IH. intros s' Hs'. apply Hk, suffix_cons_r, Hs'.
Qed.

(** A pattern cannot match when what follows it fails on every rest of
    the text. *)
Lemma rmatch_fail {R : Type} (r : regex) (s : jstring) (caps : list jstring)
    (k : jstring -> list jstring -> option R) :
  (forall s' caps', s' `suffix_of` s -> k s' caps' = None) ->
  rmatch r s caps k = None.
Proof.
  revert s caps k.
  induction r as [ci l|p|greedy p|r1 IH1 r2 IH2|r1 IH1 r2 IH2|r1 IH1];
    intros s caps k Hk; cbn [rmatch].
  - destruct (litMatch ci l s) as [rest|] eqn:Hl; [|reflexivity].
    apply Hk. exact (litMatch_suffix _ _ _ _ Hl).
  - destruct s as [|c s]; [reflexivity|].
    destruct (p c); [|reflexivity]. apply Hk, suffix_cons_r. reflexivity.
  - destruct greedy.
    + apply starGreedy_fail. intros s' Hs'. apply Hk, Hs'.
    + apply starLazy_fail. intros s' Hs'. apply Hk, Hs'.
  - apply IH1. intros s1 c1 Hs1. apply IH2. intros s2 c2 Hs2.
    apply Hk. etransitivity; eassumption.
  - rewrite IH1 by exact Hk. apply IH2, Hk.
  - apply IH1. intros s1 c1 Hs1. apply Hk, Hs1.
Qed.

Lemma not_lt_ci (c : N) : c <> 60%N -> unitMatches true 60 c = false.
Proof.
  intros Hc. unfold unitMatches, asciiUpper. apply N.eqb_neq.
  change ((97 <=? 60) && (60 <=? 122))%N with false. cbv iota.
  destruct ((97 <=? c) && (c <=? 122))%N eqn:E; [|congruence].
  apply andb_prop in E as [E1 E2].
  apply N.leb_le in E1. apply N.leb_le in E2. lia.
Qed.

Lemma exec_lt_free (ci : bool) (l : jstring) (r2 : regex) (s : jstring) :
  markupFree s = true -> exec (RSeq (RLit ci (60%N :: l)) r2) s = None.
Proof.
  intros Hs. destruct s as [|c s]; [reflexivity|].
  apply markupFree_cons in Hs as [[Hc _] _].
  apply exec_seq_lit. destruct ci; [apply not_lt_ci, Hc|].
  cbn [unitMatches]. apply N.eqb_neq. congruence.
Qed.

Lemma rmatch_seq_fail {R : Type} (r1 r2 : regex) (s : jstring)
    (caps : list jstring) (k : jstring -> list jstring -> option R) :
  (forall s1 c1, s1 `suffix_of` s -> rmatch r2 s1 c1 k = None) ->
  rmatch (RSeq r1 r2) s caps k = None.
Proof. intros Hk. cbn [rmatch]. apply rmatch_fail, Hk. Qed.

Lemma rmatch_seq_lit_fail {R : Type} (ci : bool) (l : jstring) (r2 : regex)
    (s : jstring) (caps : list jstring)
    (k : jstring -> list jstring -> option R) :
  litMatch ci l s = None -> rmatch (RSeq (RLit ci l) r2) s caps k = None.
Proof. intros Hl. cbn [rmatch]. rewrite Hl. reflexivity. Qed.

Lemma exec_attrRe_free (s : jstring) :
  markupFree s = true -> exec attrRe s = None.
Proof.
  intros Hs. unfold exec.
  replace (rmatch attrRe s [] (fun rest caps => Some (rest, caps)))
    with (@None (jstring * list jstring)); [reflexivity|].
  symmetry. unfold attrRe, seqs. cbn [fold_right].
  apply rmatch_seq_fail. intros s1 c1 Hs1.
  apply rmatch_seq_fail. intros s2 c2 Hs2.
  apply rmatch_seq_fail. intros s3 c3 Hs3.
  assert (Hfree : markupFree s3 = true).
  { eapply markupFree_suffix; [exact Hs3|].
    eapply markupFree_suffix; [exact Hs2|].
    eapply markupFree_suffix; [exact Hs1|exact Hs]. }
  apply rmatch_seq_lit_fail.
  unfold dq. destruct s3 as [|c s3]; [reflexivity|].
  apply markupFree_cons in Hfree as [[_ Hc] _].
  cbn [litMatch unitMatches].
  replace (34 =? c)%N with false; [reflexivity|].
  symmetry. apply N.eqb_neq. congruence.
Qed.

(** A pass whose pattern matches nowhere in text without markup leaves
    such text as it is. *)
Lemma replaceAll_free (r : regex) (repl : list jstring -> jstring)
    (s : jstring) :
  (forall s', markupFree s' = true -> exec r s' = None) ->
  markupFree s = true ->
  replaceAll r repl s = s.
Proof.
  intros Hr. unfold replaceAll.
  induction s as [|c s IH]; intros Hs; cbn [replaceAllFrom].
  - rewrite (Hr [] eq_refl). reflexivity.
  - rewrite (Hr _ Hs). apply markupFree_cons in Hs as [_ Hs].
    rewrite (IH Hs). reflexivity.
Qed.

Ltac lt_pattern :=
  apply replaceAll_free;
  [ intros ? ?Hfree; apply exec_lt_free; exact Hfree | assumption ].

Lemma tags_free (tags : list jstring) (s : jstring) :
  markupFree s = true ->
  fold_left (fun acc tag => replaceAll (tagBlock tag) (fun _ => []) acc) tags s
  = s.
Proof.
  intros Hs. induction tags as [|tag tags IH]; [reflexivity|].
  cbn [fold_left].
  replace (replaceAll (tagBlock tag) (fun _ => []) s) with s; [exact IH|].
  symmetry. unfold tagBlock, seqs. cbn [fold_right].
  change (js "<" ++ tag) with (60%N :: tag). lt_pattern.
Qed.

(** The passes after the tag blocks. *)
Lemma laterPasses_free (s : jstring) :
  markupFree s = true ->
  replaceAll emptyParaRe (fun _ => [])
    (replaceAll nestedCloseRe (fun _ => js "</p>")
      (replaceAll nestedOpenRe (fun _ => js "<p>")
        (replaceAll boxCloseRe (fun _ => js "</p>")
          (replaceAll boxOpenRe
             (fun caps => js "<p" ++ capture 1 caps ++ js ">")
            (replaceAll attrRe (fun _ => [])
              (replaceAll imgRe
                 (fun caps => js "<img" ++ capture 0 caps ++ imgStyle)
                (replaceAll emptyBoxRe (fun _ => []) s)))))))
  = s.
Proof.
  intros Hs.
  assert (H1 : replaceAll emptyBoxRe (fun _ => []) s = s) by lt_pattern.
  rewrite H1.
  assert (H2 : forall f, replaceAll imgRe f s = s) by (intros f; lt_pattern).
  rewrite H2.
  assert (H3 : replaceAll attrRe (fun _ => []) s = s)
    by (apply replaceAll_free; [apply exec_attrRe_free|exact Hs]).
  rewrite H3.
  assert (H4 : forall f, replaceAll boxOpenRe f s = s) by (intros f; lt_pattern).
  rewrite H4.
  assert (H5 : forall f, replaceAll boxCloseRe f s = s) by (intros f; lt_pattern).
  rewrite H5.
  assert (H6 : forall f, replaceAll nestedOpenRe f s = s) by (intros f; lt_pattern).
  rewrite H6.
  assert (H7 : forall f, replaceAll nestedCloseRe f s = s) by (intros f; lt_pattern).
  rewrite H7. lt_pattern.
Qed.

Lemma anyTag_free (s : jstring) :
  markupFree s = true -> replaceAll anyTagRe (fun _ => []) s = s.
Proof. intros Hs. lt_pattern. Qed.

(** What the length rules make of cleaned text that is free of markup. *)
Lemma finish_free (html cleanHtml : jstring) :
  html <> [] ->
  richTextPasses html = cleanHtml ->
  markupFree cleanHtml = true ->
  (10 <= jlength (trim cleanHtml))%Z ->
  (jlength cleanHtml <= lengthCeiling)%Z ->
  cleanHtmlForRichText html = cleanHtml.
Proof.
  intros Hne Hpasses Hfree Htext Hlen.
  unfold cleanHtmlForRichText. destruct html as [|c html]; [contradiction|].
  rewrite Hpasses, (anyTag_free _ Hfree).
  destruct (Z.ltb_spec (jlength (trim cleanHtml)) 10); [lia|].
  destruct (Z.ltb_spec lengthCeiling (jlength cleanHtml)); [lia|].
  reflexivity.
Qed.

(** X21: text without [<] and without double quotes, with at least 10
    units between its outer white space and at most 50000 units in all,
    comes out of the cleaner exactly as it went in. *)
Theorem cleanHtmlForRichText_keeps_text (text : jstring) :
  markupFree text = true ->
  (10 <= jlength (trim text))%Z ->
  (jlength text <= lengthCeiling)%Z ->
  cleanHtmlForRichText text = text.
Proof.
  intros Hfree Htext Hlen.
  apply finish_free; try assumption.
  - intros ->. change (jlength (trim [])) with 0%Z in Htext. lia.
  - unfold richTextPasses. rewrite (tags_free _ _ Hfree).
    apply laterPasses_free, Hfree.
Qed.

Lemma cleanHtmlForRichText_keeps_text_witness :
  cleanHtmlForRichText (js "Hello world, this is plain text")
  = js "Hello world, this is plain text".
Proof.
  apply (cleanHtmlForRichText_keeps_text (js "Hello world, this is plain text")).
  - reflexivity.
  - vm_compute. discriminate.
  - vm_compute. discriminate.
Defined.

Lemma litMatch_self (ci : bool) (l rest : jstring) :
  litMatch ci l (l ++ rest) = Some rest.
Proof.
  induction l as [|a l IH]; [reflexivity|].
  cbn [app litMatch].
  replace (unitMatches ci a a) with true; [exact IH|].
  symmetry. unfold unitMatches. destruct ci; apply N.eqb_refl.
Qed.

Lemma starLazy_through {R : Type} (body tail : jstring)
    (k : jstring -> option R) (x : R) :
  (forall c rest, c <> 60%N -> k (c :: rest) = None) ->
  markupFree body = true ->
  k tail = Some x ->
  starLazy anyUnit (body ++ tail) k = Some x.
Proof.
  intros Hk Hbody Htail. induction body as [|c body IH]; cbn [app].
  - destruct tail; cbn [starLazy]; rewrite Htail; reflexivity.
  - apply markupFree_cons in Hbody as [[Hc _] Hbody].
    cbn [starLazy]. rewrite (Hk _ _ Hc). cbn [anyUnit]. apply IH, Hbody.
Qed.

Lemma litMatch_gt (rest : jstring) :
  litMatch true (js ">") (62%N :: rest) = Some rest.
Proof. reflexivity. Qed.

(** The block pattern of [tag] matches a whole block whose content has no
    [<]. *)
Lemma exec_tagBlock (tag body post : jstring) :
  markupFree body = true ->
  exec (tagBlock tag)
       ((js "<" ++ tag) ++ js ">" ++ body ++ (js "</" ++ tag ++ js ">") ++ post)
  = Some (length ((js "<" ++ tag) ++ js ">" ++ body
                  ++ (js "</" ++ tag ++ js ">")), []).
Proof.
  intros Hbody. unfold exec, tagBlock, seqs. cbn [fold_right rmatch].
  rewrite litMatch_self.
  replace (js ">" ++ body ++ (js "</" ++ tag ++ js ">") ++ post)
    with (62%N :: body ++ (js "</" ++ tag ++ js ">") ++ post) by reflexivity.
  cbn [starGreedy].
  replace (notUnit 62 62) with false by reflexivity.
  rewrite litMatch_gt.
  erewrite starLazy_through; [| |exact Hbody|]; cycle 1.
  - intros c rest Hc.
    replace (js "</" ++ tag ++ js ">") with (60%N :: 47%N :: tag ++ js ">")
      by reflexivity.
    cbn [litMatch]. rewrite (not_lt_ci _ Hc). reflexivity.
  - rewrite litMatch_self. cbn [litMatch]. reflexivity.
  - f_equal. f_equal.
    match goal with
    | |- (length ?whole - length post)%nat = length ?block =>
      replace whole with (block ++ post)
        by (rewrite <- !app_assoc; reflexivity)
    end.
    rewrite length_app. lia.
Qed.

Lemma replaceAllFrom_skip (r : regex) (repl : list jstring -> jstring)
    (dropped rest : jstring) :
  replaceAllFrom r repl (dropped ++ rest) (length dropped)
  = replaceAllFrom r repl rest 0.
Proof.
  induction dropped as [|c dropped IH]; [reflexivity|].
  cbn [app length replaceAllFrom]. exact IH.
Qed.

Lemma scriptPass_block (pre body post : jstring) :
  markupFree pre = true ->
  markupFree body = true ->
  markupFree post = true ->
  replaceAll (tagBlock (js "script")) (fun _ => [])
    (pre ++ js "<script>" ++ body ++ js "</script>" ++ post)
  = pre ++ post.
Proof.
  intros Hpre Hbody Hpost. unfold replaceAll.
  induction pre as [|c pre IH]; cbn [app].
  - change (js "<script>" ++ body ++ js "</script>" ++ post)
      with ((js "<" ++ js "script") ++ js ">" ++ body
            ++ (js "</" ++ js "script" ++ js ">") ++ post).
    pose proof (exec_tagBlock (js "script") body post Hbody) as Hexec.
    remember ((js "<" ++ js "script") ++ js ">" ++ body
              ++ (js "</" ++ js "script" ++ js ">")) as block eqn:Hblock.
    replace ((js "<" ++ js "script") ++ js ">" ++ body
             ++ (js "</" ++ js "script" ++ js ">") ++ post)
      with (block ++ post) in *
      by (rewrite Hblock, <- !app_assoc; reflexivity).
    destruct block as [|b block]; [discriminate|].
    cbn [app replaceAllFrom]. cbn [app] in Hexec. rewrite Hexec.
    cbn [length app]. rewrite replaceAllFrom_skip.
    fold (replaceAll (tagBlock (js "script")) (fun _ => []) post).
    apply replaceAll_free; [|exact Hpost].
    intros s' Hs'. unfold tagBlock, seqs. cbn [fold_right].
    change (js "<" ++ js "script") with (60%N :: js "script").
    apply exec_lt_free, Hs'.
  - apply markupFree_cons in Hpre as [[Hc _] Hpre].
    cbn [replaceAllFrom].
    replace (exec (tagBlock (js "script"))
               (c :: pre ++ js "<script>" ++ body ++ js "</script>" ++ post))
      with (@None (nat * list jstring)).
    + rewrite (IH Hpre). reflexivity.
    + symmetry. unfold tagBlock, seqs. cbn [fold_right].
      apply exec_seq_lit. change (js "<" ++ js "script") with (60%N :: js "script").
      apply not_lt_ci, Hc.
Qed.

(** X22: a [script] element written with plain start and end tags, whose
    content holds no [<], is removed together with its content: when the
    text around it is free of markup and of ordinary length, the cleaner
    returns that text and nothing else. *)
Theorem cleanHtmlForRichText_removes_script_block (pre body post : jstring) :
  markupFree pre = true ->
  markupFree body = true ->
  markupFree post = true ->
  (10 <= jlength (trim (pre ++ post)))%Z ->
  (jlength (pre ++ post) <= lengthCeiling)%Z ->
  cleanHtmlForRichText
    (pre ++ js "<script>" ++ body ++ js "</script>" ++ post)
  = pre ++ post.
Proof.
  intros Hpre Hbody Hpost Htext Hlen.
  assert (Hfree : markupFree (pre ++ post) = true)
    by (apply markupFree_app; split; assumption).
  apply finish_free; try assumption.
  - intros Hnil. apply app_eq_nil in Hnil as [_ Hnil]. discriminate.
  - unfold richTextPasses.
    change unsupportedTags
      with (js "script" :: map js ["style"; "iframe"; "object"; "embed";
                                   "form"; "input"; "button"; "nav"; "header";
                                   "footer"; "aside"; "canvas"; "svg"]%string).
    cbn [fold_left]. rewrite (scriptPass_block _ _ _ Hpre Hbody Hpost).
    rewrite (tags_free _ _ Hfree). apply laterPasses_free, Hfree.
Qed.

Lemma cleanHtmlForRichText_removes_script_block_witness :
  cleanHtmlForRichText
    (js "Breaking news: " ++ js "<script>" ++ js "alert(1)" ++ js "</script>"
     ++ js "markets rally")
  = js "Breaking news: " ++ js "markets rally".
Proof.
  apply (cleanHtmlForRichText_removes_script_block (js "Breaking news: ")
           (js "alert(1)") (js "markets rally")).
  - reflexivity.
  - reflexivity.
  - reflexivity.
  - vm_compute. discriminate.
  - vm_compute. discriminate.
Defined.

(** ** URL hints *)

Lemma starGreedy_all {R : Type} (p : N -> bool) (s : jstring)
    (k : jstring -> option R) (x : R) :
  forallb p s = true -> k [] = Some x -> starGreedy p s k = Some x.
Proof.
  intros Hs Hk. induction s as [|c s IH]; cbn [starGreedy]; [exact Hk|].
  cbn [forallb] in Hs. apply andb_prop in Hs as [Hc Hs].
  rewrite Hc, (IH Hs). reflexivity.
Qed.

Lemma matchFirst_bv (id : jstring) :
  id <> [] ->
  forallb isAlnum id = true ->
  matchFirst bvRe (js "/BV" ++ id) = Some [js "BV" ++ id].
Proof.
  intros Hne Hid. destruct id as [|c id]; [contradiction|].
  cbn [forallb] in Hid. apply andb_prop in Hid as [Hc Hid].
  replace (js "/BV" ++ c :: id) with (47%N :: js "BV" ++ c :: id)
    by reflexivity.
  cbn [matchFirst].
  replace (exec bvRe (47%N :: js "BV" ++ c :: id))
    with (@None (nat * list jstring)) by reflexivity.
  replace (js "BV" ++ c :: id) with (66%N :: 86%N :: c :: id) by reflexivity.
  cbn [matchFirst].
  replace (exec bvRe (66%N :: 86%N :: c :: id))
    with (Some (length (66%N :: 86%N :: c :: id), [66%N :: 86%N :: c :: id]));
    [reflexivity|].
  symmetry. unfold exec, bvRe, seqs, lit. cbn [fold_right rmatch].
  replace (litMatch false (js "BV") (66%N :: 86%N :: c :: id))
    with (Some (c :: id)) by reflexivity.
  cbv beta iota. rewrite Hc.
  erewrite starGreedy_all; [|exact Hid|reflexivity].
  cbn [length app]. rewrite Nat.sub_0_r.
  replace (take (S (S (S (length id)))) (66%N :: 86%N :: c :: id))
    with (66%N :: 86%N :: c :: id); [reflexivity|].
  cbn [take]. rewrite firstn_all. reflexivity.
Qed.

(** X23: for a short link of host b23.tv whose path is a slash followed by
    a video id, the letters BV and then letters and digits, the title
    guessed from the URL names that id. *)
Theorem extractInfoFromUrl_names_video `{UrlPathApi} (url id : jstring)
    (parsed : URL) :
  newURL url = Some parsed ->
  includes (js "zhihu.com") (hostname parsed) = false ->
  includes (js "36kr.com") (hostname parsed) = false ->
  includes (js "bilibili.com") (hostname parsed) = false ->
  includes (js "b23.tv") (hostname parsed) = true ->
  pathnameOf parsed = js "/BV" ++ id ->
  id <> [] ->
  forallb isAlnum id = true ->
  info_title (extractInfoFromUrl url) = js "B站视频 - " ++ js "BV" ++ id.
Proof.
  intros Hparsed Hzhihu Hkr Hbili Hb23 Hpath Hne Hid.
  unfold extractInfoFromUrl.
  rewrite Hparsed, Hzhihu, Hkr, Hbili, Hb23, Hpath.
  rewrite (matchFirst_bv id Hne Hid). cbn [info_title capture nth].
  reflexivity.
Qed.

Lemma extractInfoFromUrl_names_video_witness :
  info_title (extractInfoFromUrl (js "https://b23.tv/BV1xx411c7mD"))
  = js "B站视频 - " ++ js "BV" ++ js "1xx411c7mD".
Proof.
  apply (@extractInfoFromUrl_names_video SimpleUrl SimpleUrlPath
           (js "https://b23.tv/BV1xx411c7mD") (js "1xx411c7mD")
           {| protocol := js "https:"; host := js "b23.tv";
              pathname := js "/BV1xx411c7mD"; search := []; hash := [] |});
    try reflexivity.
  discriminate.
Defined.
